(** * Qt4To5: a shallow embedding of the rewrite callbacks of [Qt4To5.cpp]

    The tool registers clang AST matchers and, for every match, runs a
    callback that computes text edits ([Replacement]s) and adds them to a
    map from file names to edit lists.  This development embeds the
    callbacks, the helpers [getText] and [insertIfdef], and the dispatch in
    [main], and proves the behaviour the design document states for them.

    The clang library itself is outside the repository.  The part of its
    interface the callbacks use (source locations, the source manager, the
    lexer's token measure, [Replacement] construction) is modelled in the
    modules [Clang] and [Tooling] following the clang sources the tool was
    written against. *)

From Stdlib Require Import ZArith String Ascii List Bool Lia.
From stdpp Require Import base gmap strings list.

Open Scope string_scope.
Open Scope Z_scope.

(** ** Machine integers

    [unsigned] is a 32-bit integer with wrap-around; a conversion to [int]
    reinterprets the same 32 bits as a two's complement number. *)

Definition u32 (z : Z) : Z := z mod 2 ^ 32.

Definition i32 (z : Z) : Z :=
  let w := u32 z in if w <? 2 ^ 31 then w else w - 2 ^ 32.

(** ** Strings as the code uses them

    A [const char *] into a buffer is the suffix of the buffer that starts at
    the pointer; [std::string(p, n)] copies [n] characters from it. *)

Definition nl : string := String "010"%char "".

Fixpoint str_take (n : nat) (s : string) : string :=
  match n, s with
  | S n', String c s' => String c (str_take n' s')
  | _, _ => ""
  end.

Fixpoint str_drop (n : nat) (s : string) : string :=
  match n, s with
  | S n', String _ s' => str_drop n' s'
  | _, _ => s
  end.

(** [std::string(Text, Count)]. *)
Definition std_string (Text : string) (Count : Z) : string :=
  str_take (Z.to_nat Count) Text.

(** [s.empty()]. *)
Definition empty (s : string) : bool :=
  match s with "" => true | _ => false end.

(** [s.size()]. *)
Definition size (s : string) : Z := Z.of_nat (String.length s).

(** [std::string::find(pat)] and [llvm::StringRef::find(pat)]: the position of
    the first occurrence of [pat], [None] standing for [npos]. *)
Fixpoint find_from (pat s : string) (pos : nat) : option nat :=
  if String.prefix pat s then Some pos
  else match s with
       | "" => None
       | String _ s' => find_from pat s' (S pos)
       end.

Definition find (s pat : string) : option nat := find_from pat s 0.

(** [llvm::StringRef::startswith]. *)
Definition startswith (s pre : string) : bool := String.prefix pre s.

(** The ways a callback can leave the defined behaviour of C++. *)
Inductive Fault : Type :=
| OutOfRange      (* std::out_of_range thrown by std::string::replace *)
| IllegalParam    (* getParamDecl's index is not below getNumParams *)
| NullNode        (* a node pointer that is null is dereferenced *)
| NullFileEntry   (* a file entry pointer that is null is used as a key *)
| BufferOverrun.  (* a read runs past the end of a source buffer *)

Inductive Outcome (A : Type) : Type :=
| Done (a : A)
| Crash (f : Fault).

Arguments Done {A} a.
Arguments Crash {A} f.

#[global] Instance Outcome_ret : MRet Outcome := fun _ a => Done a.

#[global] Instance Outcome_bind : MBind Outcome := fun _ _ k m =>
  match m with
  | Done a => k a
  | Crash f => Crash f
  end.

(** Dereference of a possibly null pointer. *)
Definition deref {A : Type} (p : option A) : Outcome A :=
  match p with
  | Some a => Done a
  | None => Crash NullNode
  end.

(** [s.replace(pos, len, t)] where [pos] is the result of a [find]:
    [std::string::replace] throws [std::out_of_range] when [pos > size()],
    which is the case for [npos]. *)
Definition replace (s : string) (pos : option nat) (len : Z) (t : string)
  : Outcome string :=
  match pos with
  | None => Crash OutOfRange
  | Some p => Done (str_take p s +:+ t +:+ str_drop (p + Z.to_nat len) s)
  end.

(** ** The clang interface used by the tool *)

Module Clang.

(** A [FileID] names an entry of the source manager: a file, or a macro
    expansion.  It wraps an [int]; [0] is the invalid [FileID()]. *)
Definition FileID : Type := Z.

Record FileEntry : Type := { getName : string }.

(** A source location, seen through its decomposition into an entry and an
    offset inside that entry.  A location is invalid, or lies in a file, or
    lies in a macro expansion. *)
Inductive SourceLocation : Type :=
| InvalidLoc
| FileLoc (FID : FileID) (Offset : Z)
| MacroLoc (FID : FileID) (Offset : Z).

Definition isValid (L : SourceLocation) : bool :=
  match L with InvalidLoc => false | _ => true end.

(** [L.getLocWithOffset(d)] with [d] an [int]; the result stays inside the
    same entry.  clang adds [d] to the raw location, in the one address space
    of all entries: the two agree as long as the shifted offset lies inside
    the entry, and a location shifted past the end of an entry belongs to the
    entry that follows it. *)
Definition getLocWithOffset (L : SourceLocation) (d : Z) : SourceLocation :=
  match L with
  | InvalidLoc => InvalidLoc
  | FileLoc F o => FileLoc F (o + d)
  | MacroLoc F o => MacroLoc F (o + d)
  end.

(** What the tool needs from a source manager and from the lexer. *)
Record SourceManager : Type := {
  (** where the token at an offset of a macro expansion is spelled: a file
      and an offset in it *)
  MacroSpelling : FileID -> Z -> FileID * Z;
  (** the file behind an entry, [None] (a null pointer) for a macro
      expansion or an invalid id *)
  FileEntryForID : FileID -> option FileEntry;
  (** the contents of an entry's buffer, [None] when it cannot be had *)
  Buffer : FileID -> option string;
  (** [Lexer::MeasureTokenLength] at an offset of a file *)
  TokenLength : FileID -> Z -> Z
}.

Section Manager.
Variable SM : SourceManager.

Definition getSpellingLoc (L : SourceLocation) : SourceLocation :=
  match L with
  | MacroLoc F o => let '(F', o') := MacroSpelling SM F o in FileLoc F' o'
  | _ => L
  end.

Definition getDecomposedLoc (L : SourceLocation) : FileID * Z :=
  match L with
  | InvalidLoc => (0, 0)
  | FileLoc F o => (F, o)
  | MacroLoc F o => (F, o)
  end.

Definition getFileID (L : SourceLocation) : FileID :=
  fst (getDecomposedLoc L).

Definition getFileOffset (L : SourceLocation) : Z :=
  snd (getDecomposedLoc L).

Definition getFileEntryForID (F : FileID) : option FileEntry :=
  FileEntryForID SM F.

(** [getCharacterData(L, &Invalid)]: the pointer and the flag. *)
Definition getCharacterData (L : SourceLocation) : string * bool :=
  let '(F, o) := getDecomposedLoc (getSpellingLoc L) in
  match Buffer SM F with
  | None => ("<<<<INVALID BUFFER>>>>", true)
  | Some buf => (str_drop (Z.to_nat o) buf, false)
  end.

(** [Lexer::MeasureTokenLength(L, SM, LangOptions())] for a location in a
    file. *)
Definition MeasureTokenLength (L : SourceLocation) : Z :=
  match L with
  | FileLoc F o => TokenLength SM F o
  | _ => 0
  end.

(** [Lexer::getLocForEndOfToken(L, 0, SM, LangOptions())].  The tool applies
    it to spelling locations, which lie in files; for a macro location the
    lexer answers with an invalid location unless the token ends the
    expansion, a case left out here. *)
Definition getLocForEndOfToken (L : SourceLocation) : SourceLocation :=
  match L with
  | FileLoc _ _ =>
      let Len := MeasureTokenLength L in
      if 0 <? Len then getLocWithOffset L Len else L
  | _ => InvalidLoc
  end.

(** The length of the text between the last line break before a
    position and the position. *)
Fixpoint line_tail (s : string) (acc : nat) : nat :=
  match s with
  | "" => acc
  | String c s' =>
      if (Ascii.eqb c "010" || Ascii.eqb c "013")%bool
      then line_tail s' 0
      else line_tail s' (S acc)
  end.

(** [FullSourceLoc(L, SM).getSpellingColumnNumber(&Invalid)]: the column
    (from 1) and the flag. *)
Definition getSpellingColumnNumber (L : SourceLocation) : Z * bool :=
  let '(F, FilePos) := getDecomposedLoc (getSpellingLoc L) in
  match Buffer SM F with
  | None => (1, true)
  | Some buf =>
      if size buf <? FilePos then (1, true)
      else (Z.of_nat (line_tail (str_take (Z.to_nat FilePos) buf) 0) + 1,
            false)
  end.
End Manager.

Record SourceRange : Type := {
  RangeBegin : SourceLocation;
  RangeEnd : SourceLocation
}.

Record CharSourceRange : Type := {
  getBegin : SourceLocation;
  getEnd : SourceLocation;
  isTokenRange : bool
}.

(** What the templates [getText], [insertIfdef] and [Replacement] ask of
    their node type. *)
Class Located (T : Type) : Type := {
  getLocStart : T -> SourceLocation;
  getLocEnd : T -> SourceLocation
}.

Definition getSourceRange {T : Type} `{Located T} (N : T) : SourceRange :=
  {| RangeBegin := getLocStart N; RangeEnd := getLocEnd N |}.

(** *** The AST nodes the matchers bind *)

Record ParmVarDecl : Type := { ParmRange : SourceRange }.

#[warnings="-register-all"] Inductive CXXMethodDecl : Type :=
  MkCXXMethodDecl
    (Range : SourceRange)
    (QualifiedName : string)
    (Params : list ParmVarDecl)
    (ThisDeclarationADefinition : bool)
    (InlineBody : bool)
    (Overridden : list CXXMethodDecl).

Definition MethodRange (M : CXXMethodDecl) : SourceRange :=
  let 'MkCXXMethodDecl R _ _ _ _ _ := M in R.
Definition getQualifiedNameAsString (M : CXXMethodDecl) : string :=
  let 'MkCXXMethodDecl _ Q _ _ _ _ := M in Q.
Definition Params (M : CXXMethodDecl) : list ParmVarDecl :=
  let 'MkCXXMethodDecl _ _ Ps _ _ _ := M in Ps.
Definition isThisDeclarationADefinition (M : CXXMethodDecl) : bool :=
  let 'MkCXXMethodDecl _ _ _ b _ _ := M in b.
Definition hasInlineBody (M : CXXMethodDecl) : bool :=
  let 'MkCXXMethodDecl _ _ _ _ b _ := M in b.
(** The methods between [begin_overridden_methods()] and
    [end_overridden_methods()]: those the method overrides directly. *)
Definition overridden_methods (M : CXXMethodDecl) : list CXXMethodDecl :=
  let 'MkCXXMethodDecl _ _ _ _ _ Os := M in Os.

(** [getNumParams()], an [unsigned]. *)
Definition getNumParams (M : CXXMethodDecl) : Z :=
  Z.of_nat (length (Params M)).

(** [getParamDecl(i)] asserts [i < getNumParams()]. *)
Definition getParamDecl (M : CXXMethodDecl) (i : Z) : Outcome ParmVarDecl :=
  if i <? getNumParams M then
    match Params M !! Z.to_nat i with
    | Some P => Done P
    | None => Crash IllegalParam
    end
  else Crash IllegalParam.

Inductive ValueDecl : Type :=
| MethodDecl (M : CXXMethodDecl)
| OtherValueDecl.

(** [dyn_cast<CXXMethodDecl>(V)]. *)
Definition dyn_cast_CXXMethodDecl (V : ValueDecl) : option CXXMethodDecl :=
  match V with
  | MethodDecl M => Some M
  | OtherValueDecl => None
  end.

Record MemberExpr : Type := {
  MemberRange : SourceRange;
  getMemberDecl : ValueDecl
}.

(** A [CallExpr] (or one of its subclasses) and a [DeclRefExpr] are used
    for their extent only. *)
Record CallExpr : Type := { CallRange : SourceRange }.
Record DeclRefExpr : Type := { DeclRefRange : SourceRange }.

Inductive Expr : Type :=
| ECall (C : CallExpr)
| EMember (M : MemberExpr)
| EDeclRef (D : DeclRefExpr)
| EOther (R : SourceRange).

Definition ExprRange (E : Expr) : SourceRange :=
  match E with
  | ECall C => CallRange C
  | EMember M => MemberRange M
  | EDeclRef D => DeclRefRange D
  | EOther R => R
  end.

#[global] Instance Located_ParmVarDecl : Located ParmVarDecl :=
  {| getLocStart P := RangeBegin (ParmRange P);
     getLocEnd P := RangeEnd (ParmRange P) |}.
#[global] Instance Located_CXXMethodDecl : Located CXXMethodDecl :=
  {| getLocStart M := RangeBegin (MethodRange M);
     getLocEnd M := RangeEnd (MethodRange M) |}.
#[global] Instance Located_CallExpr : Located CallExpr :=
  {| getLocStart C := RangeBegin (CallRange C);
     getLocEnd C := RangeEnd (CallRange C) |}.
#[global] Instance Located_DeclRefExpr : Located DeclRefExpr :=
  {| getLocStart D := RangeBegin (DeclRefRange D);
     getLocEnd D := RangeEnd (DeclRefRange D) |}.
#[global] Instance Located_Expr : Located Expr :=
  {| getLocStart E := RangeBegin (ExprRange E);
     getLocEnd E := RangeEnd (ExprRange E) |}.

(** *** Match results *)

Inductive DynTypedNode : Type :=
| StmtNode (E : Expr)
| DeclNode (M : CXXMethodDecl).

(** [Nodes] are the bound nodes by name; [SrcMgr] is the source manager,
    which the callbacks reach both as [Result.SourceManager] and as
    [Result.Context->getSourceManager()]. *)
Record MatchResult : Type := {
  Nodes : gmap string DynTypedNode;
  SrcMgr : SourceManager
}.

Section GetNodeAs.
Variable Result : MatchResult.

(** [Result.Nodes.getNodeAs<T>(ID)]: null when [ID] is unbound or bound
    to a node that is not a [T]. *)
Definition getNodeAs_Expr (ID : string) : option Expr :=
  match Nodes Result !! ID with
  | Some (StmtNode E) => Some E
  | _ => None
  end.

Definition getNodeAs_CallExpr (ID : string) : option CallExpr :=
  match Nodes Result !! ID with
  | Some (StmtNode (ECall C)) => Some C
  | _ => None
  end.

Definition getNodeAs_MemberExpr (ID : string) : option MemberExpr :=
  match Nodes Result !! ID with
  | Some (StmtNode (EMember M)) => Some M
  | _ => None
  end.

Definition getNodeAs_DeclRefExpr (ID : string) : option DeclRefExpr :=
  match Nodes Result !! ID with
  | Some (StmtNode (EDeclRef D)) => Some D
  | _ => None
  end.

Definition getNodeAs_CXXMethodDecl (ID : string) : option CXXMethodDecl :=
  match Nodes Result !! ID with
  | Some (DeclNode M) => Some M
  | _ => None
  end.
End GetNodeAs.

End Clang.

Export Clang.

(** ** clang's [tooling::Replacement] *)

Module Tooling.

Record Replacement : Type := {
  getFilePath : string;
  getOffset : Z;
  getLength : Z;
  getReplacementText : string
}.

Section Build.
Variable Sources : SourceManager.

(** [getRangeSize], an [int]. *)
Definition getRangeSize (Range : CharSourceRange) : Z :=
  let SpellingBegin := getSpellingLoc Sources (getBegin Range) in
  let SpellingEnd := getSpellingLoc Sources (getEnd Range) in
  let Start := getDecomposedLoc SpellingBegin in
  let End_ := getDecomposedLoc SpellingEnd in
  if negb (fst Start =? fst End_) then -1
  else
    let EndOffset :=
      if isTokenRange Range
      then u32 (snd End_ + MeasureTokenLength Sources SpellingEnd)
      else snd End_ in
    i32 (EndOffset - snd Start).

Definition setFromSourceLocation (Start : SourceLocation) (Length : Z)
    (ReplacementText : string) : Replacement :=
  let DecomposedLocation := getDecomposedLoc Start in
  let Entry := getFileEntryForID Sources (fst DecomposedLocation) in
  {| getFilePath := match Entry with Some E => getName E | None => "" end;
     getOffset := snd DecomposedLocation;
     getLength := Length;
     getReplacementText := ReplacementText |}.

Definition setFromSourceRange (Range : CharSourceRange)
    (ReplacementText : string) : Replacement :=
  setFromSourceLocation (getSpellingLoc Sources (getBegin Range))
    (u32 (getRangeSize Range)) ReplacementText.

(** [Replacement(Sources, Start, Length, ReplacementText)]. *)
Definition ReplacementAt (Start : SourceLocation) (Length : Z)
    (ReplacementText : string) : Replacement :=
  setFromSourceLocation Start Length ReplacementText.

(** [Replacement(Sources, Range, ReplacementText)]. *)
Definition ReplacementOfRange (Range : CharSourceRange)
    (ReplacementText : string) : Replacement :=
  setFromSourceRange Range ReplacementText.

(** [Replacement(Sources, NodeToReplace, ReplacementText)]: the token
    range of the node. *)
Definition ReplacementOfNode {T : Type} `{Located T} (NodeToReplace : T)
    (ReplacementText : string) : Replacement :=
  let R := getSourceRange NodeToReplace in
  setFromSourceRange
    {| getBegin := RangeBegin R; getEnd := RangeEnd R;
       isTokenRange := true |}
    ReplacementText.
End Build.

(** Applying one replacement to the contents of its file. *)
Definition apply (R : Replacement) (Code : string) : string :=
  str_take (Z.to_nat (getOffset R)) Code
    +:+ getReplacementText R
    +:+ str_drop (Z.to_nat (getOffset R) + Z.to_nat (getLength R)) Code.

End Tooling.

Export Tooling.


(** ** The tool: [Qt4To5.cpp] *)

(** The command line options, which the code reads as global variables. *)
Record Options : Type := {
  SourceDir : string;
  BuildPath : string;
  CreateIfdefs : bool;
  PortQMetaMethodSignature : bool;
  PortQtEscape : bool;
  PortAtomics : bool;
  RenameEnum : string;
  RenameMethod_Class : string;
  Rename_Old : string;
  Rename_New : string;
  Port_QImage_text : bool;
  Port_QAbstractItemView_dataChanged : bool;
  SourcePaths : list string
}.

(** [std::map<std::string, Replacements>]: the edits of each file, by file
    name, in the order in which they were added. *)
Abbreviation ReplacementsMap := (gmap string (list Replacement)).

(** Modelled from the spec: [Utils::AddReplacement], declared in [Utils.h],
    which is not among the sources.  The design document describes the
    collector as one edit set per file identity to which [add(file, edit)]
    appends.  The file identity is the name of the entry; an entry that is a
    null pointer has no name to use as a key. *)
Definition AddReplacement (Entry : option FileEntry) (R : Replacement)
    (Replace : ReplacementsMap) : Outcome ReplacementsMap :=
  match Entry with
  | None => Crash NullFileEntry
  | Some E =>
      Done (<[getName E := (default [] (Replace !! getName E) ++ [R])%list]> Replace)
  end.

(** Returns the text that makes up [Node] in the source.
    Returns an empty string if the text cannot be found. *)
Definition getText {T : Type} `{Located T} (SourceManager : SourceManager)
    (Node : T) : string :=
  let StartSpellingLocation :=
    getSpellingLoc SourceManager (getLocStart Node) in
  let EndSpellingLocation :=
    getSpellingLoc SourceManager (getLocEnd Node) in
  if negb (isValid StartSpellingLocation) || negb (isValid EndSpellingLocation)
  then ""
  else
    let '(Text, Invalid) :=
      getCharacterData SourceManager StartSpellingLocation in
    if Invalid then ""
    else
      let Start := getDecomposedLoc StartSpellingLocation in
      let End_ :=
        getDecomposedLoc
          (getLocForEndOfToken SourceManager EndSpellingLocation) in
      if negb (fst Start =? fst End_) then ""
      else if snd End_ <? snd Start then ""
      else std_string Text (u32 (snd End_ - snd Start)).

(** The loop [while (Text[eol] != '\n') ++eol;]: the first index from [eol]
    on at which [Text] holds a line feed.  The buffer ends in a NUL, which is
    not a line feed, so a text without one sends the loop past the buffer. *)
Fixpoint scan_eol (Rest : string) (eol : nat) : Outcome nat :=
  match Rest with
  | "" => Crash BufferOverrun
  | String c Rest' =>
      if Ascii.eqb c "010" then Done eol else scan_eol Rest' (S eol)
  end.

Definition find_eol (Text : string) (eol : Z) : Outcome Z :=
  n ← scan_eol (str_drop (Z.to_nat eol) Text) (Z.to_nat eol);
  mret (Z.of_nat n).

Definition OldVersionGuard : string :=
  "#if QT_VERSION < QT_VERSION_CHECK(5, 0, 0)".

Definition insertIfdef {T : Type} `{Located T} (SourceManager : SourceManager)
    (Node : T) (Replace : ReplacementsMap) : Outcome ReplacementsMap :=
  let StartSpellingLocation :=
    getSpellingLoc SourceManager (getLocStart Node) in
  let EndSpellingLocation :=
    getSpellingLoc SourceManager (getLocEnd Node) in
  if negb (isValid StartSpellingLocation) || negb (isValid EndSpellingLocation)
  then Done Replace
  else
    let '(Column, Invalid) :=
      getSpellingColumnNumber SourceManager StartSpellingLocation in
    let StartOfLine :=
      getLocWithOffset StartSpellingLocation (i32 (u32 (- Column) + 1)) in
    if Invalid then Done Replace
    else
      let '(Text, _) := getCharacterData SourceManager StartOfLine in
      let Start := getDecomposedLoc StartOfLine in
      let End_ :=
        getDecomposedLoc
          (getLocForEndOfToken SourceManager EndSpellingLocation) in
      if negb (fst Start =? fst End_) then Done Replace
      else if snd End_ <? snd Start then Done Replace
      else
        eol ← find_eol Text (u32 (snd End_ - snd Start));
        let ExistingText := std_string Text eol in
        let EndOfLine := getLocWithOffset StartOfLine (i32 eol) in
        Replace1 ← AddReplacement
          (getFileEntryForID SourceManager (fst Start))
          (ReplacementAt SourceManager StartOfLine 0
             (OldVersionGuard +:+ nl +:+ ExistingText +:+ nl +:+ "#else" +:+ nl))
          Replace;
        AddReplacement
          (getFileEntryForID SourceManager (fst Start))
          (ReplacementAt SourceManager EndOfLine 0 (nl +:+ "#endif"))
          Replace1.

Definition QStringClassName : string := "QString".
Definition QLatin1StringClassName : string := "QLatin1String".
Definition QtEscapeFunction : string := "::Qt::escape".

(** A pointer used as a condition. *)
Definition notnull {A : Type} (p : option A) : bool :=
  match p with Some _ => true | None => false end.

Section Callbacks.
Variable Opts : Options.

Definition PortQtEscape4To5_run (Result : MatchResult)
    (Replace : ReplacementsMap) : Outcome ReplacementsMap :=
  let Call := getNodeAs_CallExpr Result "call" in
  let CTor := getNodeAs_Expr Result "ctor" in
  let E := getNodeAs_Expr Result "expr" in
  let O := getNodeAs_Expr Result "operator" in
  ArgText ←
    match CTor with
    | Some CTor' => Done (getText (SrcMgr Result) CTor')
    | None =>
        match E with
        | Some E' => Done (getText (SrcMgr Result) E')
        | None => O' ← deref O; mret (getText (SrcMgr Result) O')
        end
    end;
  if empty ArgText then Done Replace
  else
    let output :=
      if notnull CTor || notnull O
      then QStringClassName +:+ "(" +:+ ArgText +:+ ").toHtmlEscaped()"
      else ArgText +:+ ".toHtmlEscaped()" in
    let srcMgr := SrcMgr Result in
    Call' ← deref Call;
    Replace1 ← AddReplacement
      (getFileEntryForID srcMgr (getFileID (getLocStart Call')))
      (ReplacementOfNode (SrcMgr Result) Call' output)
      Replace;
    if CreateIfdefs Opts
    then insertIfdef (SrcMgr Result) Call' Replace1
    else Done Replace1.

Definition PortMetaMethods_run (Result : MatchResult)
    (Replace : ReplacementsMap) : Outcome ReplacementsMap :=
  Call ← deref (getNodeAs_Expr Result "call");
  let ArgText := getText (SrcMgr Result) Call in
  if empty ArgText then Done Replace
  else
    let target := "signature" in
    let replacement := "methodSignature" in
    ArgText' ← replace ArgText (find ArgText target) (size target) replacement;
    let srcMgr := SrcMgr Result in
    Replace1 ← AddReplacement
      (getFileEntryForID srcMgr (getFileID (getLocStart Call)))
      (ReplacementOfNode (SrcMgr Result) Call ArgText')
      Replace;
    if CreateIfdefs Opts
    then insertIfdef (SrcMgr Result) Call Replace1
    else Done Replace1.

Definition PortAtomic_run (Result : MatchResult)
    (Replace : ReplacementsMap) : Outcome ReplacementsMap :=
  Call ← deref (getNodeAs_CallExpr Result "call");
  let ArgText := getText (SrcMgr Result) Call in
  if empty ArgText then Done Replace
  else
    let srcMgr := SrcMgr Result in
    Replace1 ← AddReplacement
      (getFileEntryForID srcMgr (getFileID (getLocStart Call)))
      (ReplacementOfNode (SrcMgr Result) Call (ArgText +:+ ".load()"))
      Replace;
    if CreateIfdefs Opts
    then insertIfdef (SrcMgr Result) Call Replace1
    else Done Replace1.

Definition PortEnum_run (Result : MatchResult)
    (Replace : ReplacementsMap) : Outcome ReplacementsMap :=
  Call ← deref (getNodeAs_DeclRefExpr Result "call");
  let ArgText := getText (SrcMgr Result) Call in
  if empty ArgText then Done Replace
  else
    ArgText' ← replace ArgText (find ArgText (Rename_Old Opts))
                 (size (Rename_Old Opts)) (Rename_New Opts);
    let srcMgr := SrcMgr Result in
    Replace1 ← AddReplacement
      (getFileEntryForID srcMgr (getFileID (getLocStart Call)))
      (ReplacementOfNode (SrcMgr Result) Call (Rename_New Opts))
      Replace;
    if CreateIfdefs Opts
    then insertIfdef (SrcMgr Result) Call Replace1
    else Done Replace1.

Definition PortView2_run (Result : MatchResult)
    (Replace : ReplacementsMap) : Outcome ReplacementsMap :=
  F ← deref (getNodeAs_CXXMethodDecl Result "funcDecl");
  let StartSpellingLocation :=
    getSpellingLoc (SrcMgr Result) (getLocStart F) in
  if negb (isValid StartSpellingLocation) then Done Replace
  else
    let Start := getDecomposedLoc StartSpellingLocation in
    match getFileEntryForID (SrcMgr Result) (fst Start) with
    | None => Crash NullFileEntry
    | Some Entry =>
        let location := getName Entry in
        if negb (startswith location (SourceDir Opts)) then Done Replace
        else
          P ← getParamDecl F (u32 (getNumParams F - 1));
          let ArgText := getText (SrcMgr Result) P in
          let NewArg := "const QVector<int> &" in
          let NewArg :=
            if negb (isThisDeclarationADefinition F) || hasInlineBody F
            then NewArg +:+ " = QVector<int>()"
            else NewArg in
          let srcMgr := SrcMgr Result in
          Replace1 ← AddReplacement
            (getFileEntryForID srcMgr (getFileID (getLocStart P)))
            (ReplacementOfNode (SrcMgr Result) P (ArgText +:+ ", " +:+ NewArg))
            Replace;
          if CreateIfdefs Opts
          then insertIfdef (SrcMgr Result) P Replace1
          else Done Replace1
    end.

(** The loop over the overridden methods of [M], left at the first one whose
    name, with [::] in front, contains [Pattern]. *)
Fixpoint overridden_loop (Pattern : string) (Os : list CXXMethodDecl) : bool :=
  match Os with
  | [] => false
  | Ov :: Os' =>
      let FullNameString := "::" +:+ getQualifiedNameAsString Ov in
      let FullName := FullNameString in
      if notnull (find FullName Pattern) then true
      else overridden_loop Pattern Os'
  end.

Definition PortRenamedMethods_run (Result : MatchResult)
    (Replace : ReplacementsMap) : Outcome ReplacementsMap :=
  let Call := getNodeAs_CallExpr Result "call" in
  let E := getNodeAs_MemberExpr Result "expr" in
  let Exact := getNodeAs_MemberExpr Result "exact" in
  let Func := getNodeAs_Expr Result "func" in
  overriddenVirtual ←
    (if negb (notnull Exact) && negb (notnull Func)
     then
       E' ← deref E;
       let V := getMemberDecl E' in
       M ← deref (dyn_cast_CXXMethodDecl V);
       mret (overridden_loop (RenameMethod_Class Opts) (overridden_methods M))
     else Done false);
  if negb (overriddenVirtual || notnull Exact || notnull Func)
  then Done Replace
  else
    Call' ← deref Call;
    let ArgText := getText (SrcMgr Result) Call' in
    if empty ArgText then Done Replace
    else
      ArgText' ← replace ArgText (find ArgText (Rename_Old Opts))
                   (size (Rename_Old Opts)) (Rename_New Opts);
      let srcMgr := SrcMgr Result in
      AddReplacement
        (getFileEntryForID srcMgr (getFileID (getLocStart Call')))
        (ReplacementOfNode (SrcMgr Result) Call' ArgText')
        Replace.

Definition RemoveArgument_run (Result : MatchResult)
    (Replace : ReplacementsMap) : Outcome ReplacementsMap :=
  let Call := getNodeAs_CallExpr Result "call" in
  Key ← deref (getNodeAs_Expr Result "prevArg");
  Lang ← deref (getNodeAs_Expr Result "arg");
  let StartSpellingLocation :=
    getSpellingLoc (SrcMgr Result) (getLocEnd Key) in
  let EndSpellingLocation :=
    getSpellingLoc (SrcMgr Result) (getLocEnd Lang) in
  if negb (isValid StartSpellingLocation) || negb (isValid EndSpellingLocation)
  then Done Replace
  else
    let Start :=
      getDecomposedLoc
        (getLocForEndOfToken (SrcMgr Result) StartSpellingLocation) in
    let End_ :=
      getDecomposedLoc
        (getLocForEndOfToken (SrcMgr Result) EndSpellingLocation) in
    if negb (fst Start =? fst End_) then Done Replace
    else if snd End_ <? snd Start then Done Replace
    else
      let StartOfFile :=
        getLocWithOffset StartSpellingLocation
          (i32 (- getFileOffset (getLocStart Key))) in
      let StartSpellingLocation' :=
        getLocWithOffset StartOfFile (i32 (snd Start)) in
      let EndSpellingLocation' :=
        getLocWithOffset StartOfFile (i32 (snd End_)) in
      let range :=
        {| getBegin := StartSpellingLocation';
           getEnd := EndSpellingLocation';
           isTokenRange := false |} in
      let srcMgr := SrcMgr Result in
      Replace1 ← AddReplacement
        (getFileEntryForID srcMgr (fst Start))
        (ReplacementOfRange (SrcMgr Result) range "")
        Replace;
      if CreateIfdefs Opts
      then Call' ← deref Call; insertIfdef (SrcMgr Result) Call' Replace1
      else Done Replace1.

End Callbacks.

(** ** Rule sets and dispatch *)

(** What [portMethod]'s matcher binds for a call.  [anyOf] takes the first
    alternative that matches; [callee(memberExpr())] holds when the callee
    expression is a member access.  Whether the callee declaration satisfies
    [hasName(matchName)] or [hasName(Rename_Old)] is the query engine's
    answer and comes in as a flag. *)
Definition portMethod_bindings (hasMatchName hasOldName : bool)
    (Callee : Expr) (Call : CallExpr) : option (gmap string DynTypedNode) :=
  let bindCall (m : gmap string DynTypedNode) :=
    <["call" := StmtNode (ECall Call)]> m in
  let isMember := match Callee with EMember _ => true | _ => false end in
  if hasMatchName && isMember
  then Some (bindCall {["exact" := StmtNode Callee]})
  else if hasOldName && isMember
  then Some (bindCall {["expr" := StmtNode Callee]})
  else if hasMatchName
  then Some (bindCall {["func" := StmtNode Callee]})
  else None.

(** The match finders the [port...] functions set up: each pairs the matchers
    of one rule set with one callback. *)
Inductive Finder : Type :=
| EnumFinder (matchName : string)
| MethodFinder (matchName : string)
| QMetaMethodSignatureFinder
| QtEscapeFinder
| AtomicsFinder
| QImageTextFinder
| ViewDataChangedFinder.

(** How the process ends: [llvm::report_fatal_error], or a return from
    [main]. *)
Inductive Exit : Type :=
| FatalError (ErrorMessage : string)
| Return (code : Z).

Section Main.
Variable Opts : Options.
Variable CompilationDatabase : Type.
(** [CompilationDatabase::loadFromDirectory(BuildPath, ErrorMessage)]: the
    pointer and the message. *)
Variable loadFromDirectory : string -> option CompilationDatabase * string.
(** [RefactoringTool(Compilations, SourcePaths).run(...)] over a finder. *)
Variable ToolRun : CompilationDatabase -> list string -> Finder -> Z.

(** Each [port...] function runs its finder once and returns the result of
    the run; the finder is recorded with the result. *)
Definition portMethod (Compilations : CompilationDatabase) : list Finder * Z :=
  let matchName :=
    if 0 <? size (RenameMethod_Class Opts) then RenameMethod_Class Opts
    else "" in
  let matchName := matchName +:+ ("::" +:+ Rename_Old Opts) in
  let F := MethodFinder matchName in
  ([F], ToolRun Compilations (SourcePaths Opts) F).

Definition portQMetaMethodSignature (Compilations : CompilationDatabase)
  : list Finder * Z :=
  ([QMetaMethodSignatureFinder],
   ToolRun Compilations (SourcePaths Opts) QMetaMethodSignatureFinder).

Definition portQtEscape (Compilations : CompilationDatabase)
  : list Finder * Z :=
  ([QtEscapeFinder], ToolRun Compilations (SourcePaths Opts) QtEscapeFinder).

Definition portAtomics (Compilations : CompilationDatabase)
  : list Finder * Z :=
  ([AtomicsFinder], ToolRun Compilations (SourcePaths Opts) AtomicsFinder).

Definition portQImageText (Compilations : CompilationDatabase)
  : list Finder * Z :=
  ([QImageTextFinder],
   ToolRun Compilations (SourcePaths Opts) QImageTextFinder).

Definition portViewDataChanged (Compilations : CompilationDatabase)
  : list Finder * Z :=
  ([ViewDataChangedFinder],
   ToolRun Compilations (SourcePaths Opts) ViewDataChangedFinder).

Definition portEnum (Compilations : CompilationDatabase) : list Finder * Z :=
  let F := EnumFinder (RenameEnum Opts +:+ "::" +:+ Rename_Old Opts) in
  ([F], ToolRun Compilations (SourcePaths Opts) F).

(** [main] after the command line is parsed: the finders that ran, and how
    the process ended. *)
Definition main : list Finder * Exit :=
  let ran (r : list Finder * Z) := (fst r, Return (snd r)) in
  let '(Compilations, ErrorMessage) := loadFromDirectory (BuildPath Opts) in
  match Compilations with
  | None => ([], FatalError ErrorMessage)
  | Some Compilations =>
      if negb (String.eqb (RenameEnum Opts) "")
      then ran (portEnum Compilations)
      else if negb (String.eqb (Rename_Old Opts) "")
              && negb (String.eqb (Rename_New Opts) "")
      then ran (portMethod Compilations)
      else if PortQMetaMethodSignature Opts
      then ran (portQMetaMethodSignature Compilations)
      else if PortQtEscape Opts
      then ran (portQtEscape Compilations)
      else if PortAtomics Opts
      then ran (portAtomics Compilations)
      else if Port_QImage_text Opts
      then ran (portQImageText Compilations)
      else if Port_QAbstractItemView_dataChanged Opts
      then ran (portViewDataChanged Compilations)
      else ([], Return 1)
  end.

End Main.

(** ** Concrete source managers

    A source manager over a list of files, numbered from 1, with a small
    lexer in place of clang's: a token is a run of identifier characters, a
    string literal, or one other character. *)

Module Fixture.

Definition is_ident (c : ascii) : bool :=
  let n := nat_of_ascii c in
  ((48 <=? n) && (n <=? 57) || (65 <=? n) && (n <=? 90)
   || (97 <=? n) && (n <=? 122) || (n =? 95))%nat.

Fixpoint ident_run (s : string) : nat :=
  match s with
  | String c s' => if is_ident c then S (ident_run s') else 0%nat
  | "" => 0%nat
  end.

(** The length of a string literal whose opening quote was read. *)
Fixpoint literal_run (s : string) : nat :=
  match s with
  | String c s' => if Ascii.eqb c "034" then 1%nat else S (literal_run s')
  | "" => 0%nat
  end.

Definition lex (buf : string) (o : Z) : Z :=
  match str_drop (Z.to_nat o) buf with
  | "" => 0
  | String c rest =>
      if is_ident c then Z.of_nat (S (ident_run rest))
      else if Ascii.eqb c "034" then Z.of_nat (S (literal_run rest))
      else 1
  end.

(** [files] are pairs of a name and a buffer; [macros] maps an entry and an
    offset of a macro expansion to the place of the spelling. *)
Definition manager (files : list (string * string))
    (macros : list (FileID * Z * (FileID * Z))) : SourceManager :=
  let file (F : FileID) :=
    if 0 <? F then nth_error files (Z.to_nat (F - 1)) else None in
  {| MacroSpelling F o :=
       match List.find (fun m => (fst (fst m) =? F) && (snd (fst m) =? o))
                       macros with
       | Some m => snd m
       | None => (0, 0)
       end;
     FileEntryForID F :=
       match file F with
       | Some f => Some {| getName := fst f |}
       | None => None
       end;
     Buffer F :=
       match file F with
       | Some f => Some (snd f)
       | None => None
       end;
     TokenLength F o :=
       match file F with
       | Some f => lex (snd f) o
       | None => 0
       end |}.

Definition range (F : FileID) (first last : Z) : SourceRange :=
  {| RangeBegin := FileLoc F first; RangeEnd := FileLoc F last |}.

Definition options : Options :=
  {| SourceDir := "/src"; BuildPath := "/build"; CreateIfdefs := false;
     PortQMetaMethodSignature := false; PortQtEscape := false;
     PortAtomics := false; RenameEnum := ""; RenameMethod_Class := "";
     Rename_Old := ""; Rename_New := ""; Port_QImage_text := false;
     Port_QAbstractItemView_dataChanged := false; SourcePaths := [] |}.

End Fixture.

(** ** Reading the results *)

(** The edits recorded for a file name. *)
Definition edits_of (Replace : ReplacementsMap) (Name : string)
  : list Replacement :=
  default [] (Replace !! Name).


(** The extent of a node resolves to the bytes from [s] to [e'] of the file
    [F]: its first token is spelled at offset [s] of [F], its last token is
    spelled in [F] too and ends at [e'], not before [s], and the offsets are
    offsets clang can represent. *)
Definition resolves {T : Type} `{Located T} (SM : SourceManager) (Node : T)
    (F : FileID) (s e' : Z) : Prop :=
  exists e,
    getSpellingLoc SM (getLocStart Node) = FileLoc F s /\
    getSpellingLoc SM (getLocEnd Node) = FileLoc F e /\
    0 <= TokenLength SM F e /\
    e' = e + TokenLength SM F e /\
    0 <= s <= e' /\ e' < 2 ^ 31.

(** The text of a resolved extent, [buf] being the buffer of its file. *)
Definition text_between (buf : string) (s e' : Z) : string :=
  str_take (Z.to_nat (e' - s)) (str_drop (Z.to_nat s) buf).

(** The options with the dual-mode switch set to [b]. *)
Definition with_CreateIfdefs (b : bool) (Opts : Options) : Options :=
  {| SourceDir := SourceDir Opts; BuildPath := BuildPath Opts;
     CreateIfdefs := b;
     PortQMetaMethodSignature := PortQMetaMethodSignature Opts;
     PortQtEscape := PortQtEscape Opts; PortAtomics := PortAtomics Opts;
     RenameEnum := RenameEnum Opts;
     RenameMethod_Class := RenameMethod_Class Opts;
     Rename_Old := Rename_Old Opts; Rename_New := Rename_New Opts;
     Port_QImage_text := Port_QImage_text Opts;
     Port_QAbstractItemView_dataChanged :=
       Port_QAbstractItemView_dataChanged Opts;
     SourcePaths := SourcePaths Opts |}.

(** How the argument of [Qt::escape] is bound by [portQtEscape]'s matcher,
    whose [anyOf] binds one name: as an operator call (directly or under a
    bound temporary), as a constructed temporary, or as a plain expression.
    The flag tells whether the argument is an operator call or a constructed
    temporary. *)
Inductive EscapeArgument (Result : MatchResult) : Expr -> bool -> Prop :=
| Argument_operator (Arg : Expr) :
    getNodeAs_Expr Result "operator" = Some Arg ->
    getNodeAs_Expr Result "ctor" = None ->
    getNodeAs_Expr Result "expr" = None ->
    EscapeArgument Result Arg true
| Argument_ctor (Arg : Expr) :
    getNodeAs_Expr Result "ctor" = Some Arg ->
    getNodeAs_Expr Result "expr" = None ->
    getNodeAs_Expr Result "operator" = None ->
    EscapeArgument Result Arg true
| Argument_expr (Arg : Expr) :
    getNodeAs_Expr Result "expr" = Some Arg ->
    getNodeAs_Expr Result "ctor" = None ->
    getNodeAs_Expr Result "operator" = None ->
    EscapeArgument Result Arg false.

(** A definition written outside its class: a definition whose body is not
    inline. *)
Definition isOutOfLineDefinition (F : CXXMethodDecl) : bool :=
  isThisDeclarationADefinition F && negb (hasInlineBody F).

(** The override test as the design document words it: some overridden
    method's fully qualified name contains [<ConfiguredClass>::<OldName>]. *)
Definition overrides_qualified_name (Opts : Options) (M : CXXMethodDecl)
  : bool :=
  existsb
    (fun Ov =>
       notnull (find (getQualifiedNameAsString Ov)
                  (RenameMethod_Class Opts +:+ "::" +:+ Rename_Old Opts)))
    (overridden_methods M).

(** Texts without a character of some class. *)
Fixpoint free_of (p : ascii -> bool) (s : string) : bool :=
  match s with
  | "" => true
  | String c s' => negb (p c) && free_of p s'
  end.

Definition is_line_feed (c : ascii) : bool := Ascii.eqb c "010".

(** The characters at which clang's column count starts again. *)
Definition is_line_break (c : ascii) : bool :=
  (Ascii.eqb c "010" || Ascii.eqb c "013")%bool.

(** The two insertions of the dual-mode wrapper around the text [line] that
    follows the text [pre] in the file named [Name]. *)
Definition wrapper_open (Name pre line : string) : Replacement :=
  {| getFilePath := Name;
     getOffset := size pre;
     getLength := 0;
     getReplacementText :=
       OldVersionGuard +:+ nl +:+ line +:+ nl +:+ "#else" +:+ nl |}.

Definition wrapper_close (Name pre line : string) : Replacement :=
  {| getFilePath := Name;
     getOffset := size (pre +:+ line);
     getLength := 0;
     getReplacementText := nl +:+ "#endif" |}.

(** The selectors of [main] in their order of priority, each with the finder
    of its rule set. *)
Definition selectors (Opts : Options) : list (bool * Finder) :=
  [ (negb (String.eqb (RenameEnum Opts) ""),
     EnumFinder (RenameEnum Opts +:+ "::" +:+ Rename_Old Opts));
    (negb (String.eqb (Rename_Old Opts) "")
       && negb (String.eqb (Rename_New Opts) ""),
     MethodFinder (RenameMethod_Class Opts +:+ "::" +:+ Rename_Old Opts));
    (PortQMetaMethodSignature Opts, QMetaMethodSignatureFinder);
    (PortQtEscape Opts, QtEscapeFinder);
    (PortAtomics Opts, AtomicsFinder);
    (Port_QImage_text Opts, QImageTextFinder);
    (Port_QAbstractItemView_dataChanged Opts, ViewDataChangedFinder) ].

(** ** Concrete inputs *)

Module Inputs.

(** [qt4to5 -rename-enum=Qt -rename-old=AlignLeft -rename-new=AlignLeading
    -port-qt-escape ...]: two selectors at once. *)
Definition enum_and_escape : Options :=
  {| SourceDir := "/src"; BuildPath := "/build"; CreateIfdefs := false;
     PortQMetaMethodSignature := false; PortQtEscape := true;
     PortAtomics := false; RenameEnum := "Qt"; RenameMethod_Class := "";
     Rename_Old := "AlignLeft"; Rename_New := "AlignLeading";
     Port_QImage_text := false;
     Port_QAbstractItemView_dataChanged := false;
     SourcePaths := ["/src/main.cpp"] |}.

(** A compilation database that loads, and a run in which a source file
    fails to parse, for which [ClangTool::run] returns 1. *)
Definition loads (BuildPath : string) : option unit * string := (Some tt, "").
Definition run_fails (_ : unit) (_ : list string) (_ : Finder) : Z := 1.

(** A header in which the name of the last parameter of an override of
    [dataChanged] comes from a macro defined in another header:

      /src/names.h:  #define NAME b
      /src/view.h:   void dataChanged(const QModelIndex &a, const QModelIndex & NAME);

    The last parameter starts in [view.h] (at [const], offset 39) and ends at
    the expansion of [NAME], which is spelled in [names.h] at offset 13. *)
Definition view_manager : SourceManager :=
  Fixture.manager
    [ ("/src/view.h",
       "void dataChanged(const QModelIndex &a, const QModelIndex & NAME);" +:+ nl);
      ("/src/names.h", "#define NAME b" +:+ nl) ]
    [ (3, 0, (2, 13)) ].

Definition view_last_param : ParmVarDecl :=
  {| ParmRange := {| RangeBegin := FileLoc 1 39; RangeEnd := MacroLoc 3 0 |} |}.

Definition view_decl : CXXMethodDecl :=
  MkCXXMethodDecl (Fixture.range 1 0 63) "View::dataChanged"
    [ {| ParmRange := Fixture.range 1 17 36 |}; view_last_param ]
    false false [].

Definition view_match : MatchResult :=
  {| Nodes := {[ "funcDecl" := DeclNode view_decl ]};
     SrcMgr := view_manager |}.

(** An override of [dataChanged] without parameters, declared in a class
    derived from [QAbstractItemView] under the source root:

      /src/list.h:  void dataChanged(); *)
Definition list_manager : SourceManager :=
  Fixture.manager [ ("/src/list.h", "void dataChanged();" +:+ nl) ] [].

Definition list_decl : CXXMethodDecl :=
  MkCXXMethodDecl (Fixture.range 1 0 17) "List::dataChanged" [] false false [].

Definition list_match : MatchResult :=
  {| Nodes := {[ "funcDecl" := DeclNode list_decl ]};
     SrcMgr := list_manager |}.

(** [QString s = Qt::escape(str);]: the call is at offsets 12 to 26, its
    argument [str], a plain expression, at 23. *)
Definition escape_plain_manager : SourceManager :=
  Fixture.manager
    [ ("/src/main.cpp", "QString s = Qt::escape(str);" +:+ nl) ] [].

Definition escape_plain_call : CallExpr :=
  {| CallRange := Fixture.range 1 12 26 |}.

Definition escape_plain_match : MatchResult :=
  {| Nodes := {[ "call" := StmtNode (ECall escape_plain_call);
                 "expr" := StmtNode (EOther (Fixture.range 1 23 23)) ]};
     SrcMgr := escape_plain_manager |}.

(** [  QString s = Qt::escape(a + b);]: the call is at offsets 14 to 30, its
    argument, a call of [operator+], at 25 to 29. *)
Definition escape_sum_manager : SourceManager :=
  Fixture.manager
    [ ("/src/main.cpp", "  QString s = Qt::escape(a + b);" +:+ nl) ] [].

Definition escape_sum_call : CallExpr :=
  {| CallRange := Fixture.range 1 14 30 |}.

Definition escape_sum_match : MatchResult :=
  {| Nodes := {[ "call" := StmtNode (ECall escape_sum_call);
                 "operator" := StmtNode (ECall {| CallRange := Fixture.range 1 25 29 |}) ]};
     SrcMgr := escape_sum_manager |}.

(** An override of [dataChanged] declared in a class under the source root:

      /src/table.h:
        class V : public QAbstractItemView {
          void dataChanged(const QModelIndex &topLeft, const QModelIndex &bottomRight);
        };

    The last parameter is at offsets 84 to 103 (its name starts there). *)
Definition table_manager : SourceManager :=
  Fixture.manager
    [ ("/src/table.h",
       "class V : public QAbstractItemView {" +:+ nl +:+
       "  void dataChanged(const QModelIndex &topLeft, const QModelIndex &bottomRight);"
       +:+ nl +:+ "};" +:+ nl) ] [].

Definition table_last_param : ParmVarDecl :=
  {| ParmRange := Fixture.range 1 84 103 |}.

Definition table_decl : CXXMethodDecl :=
  MkCXXMethodDecl (Fixture.range 1 39 114) "V::dataChanged"
    [ {| ParmRange := Fixture.range 1 56 75 |}; table_last_param ]
    false false [].

Definition table_match : MatchResult :=
  {| Nodes := {[ "funcDecl" := DeclNode table_decl ]};
     SrcMgr := table_manager |}.

(** [qt4to5 -rename-class=Foo -rename-old=m -rename-new=n] in dual mode. *)
Definition rename_m : Options :=
  {| SourceDir := "/src"; BuildPath := "/build"; CreateIfdefs := true;
     PortQMetaMethodSignature := false; PortQtEscape := false;
     PortAtomics := false; RenameEnum := ""; RenameMethod_Class := "Foo";
     Rename_Old := "m"; Rename_New := "n"; Port_QImage_text := false;
     Port_QAbstractItemView_dataChanged := false;
     SourcePaths := ["/src/use.cpp"] |}.

(** [d.m();]: the call is at offsets 0 to 4, its callee [d.m], a member
    access, at 0 to 2. *)
Definition use_manager : SourceManager :=
  Fixture.manager [ ("/src/use.cpp", "d.m();" +:+ nl) ] [].

Definition use_call : CallExpr := {| CallRange := Fixture.range 1 0 4 |}.

Definition method (QualifiedName : string) (Overridden : list CXXMethodDecl)
  : CXXMethodDecl :=
  MkCXXMethodDecl (Fixture.range 2 0 0) QualifiedName [] false false Overridden.

Definition use_callee (M : CXXMethodDecl) : MemberExpr :=
  {| MemberRange := Fixture.range 1 0 2; getMemberDecl := MethodDecl M |}.

(** The match for [d.m()] when [d] is a [D] and [D::m] is [M]: [M] does not
    satisfy [hasName("Foo::m")] but satisfies [hasName("m")], so the second
    alternative of [portMethod]'s matcher binds the callee as "expr". *)
Definition use_match (M : CXXMethodDecl) : MatchResult :=
  {| Nodes :=
       default ∅
         (portMethod_bindings false true (EMember (use_callee M)) use_call);
     SrcMgr := use_manager |}.

(** [D::m] overrides [Foobar::m], a method of a class whose name only starts
    with that of the configured class. *)
Definition overrides_Foobar : CXXMethodDecl :=
  method "D::m" [method "Foobar::m" []].

(** [D::m] overrides [Foo::m]. *)
Definition overrides_Foo : CXXMethodDecl :=
  method "D::m" [method "Foo::m" []].

(** [D::m] overrides nothing. *)
Definition overrides_nothing : CXXMethodDecl := method "D::m" [].

(** A call of [QImage::text] whose first argument has more than one token:

      /src/image.cpp:
        QString t = img.text(k.data(), 0);
        return t;

    The call is at offsets 12 to 32, the first argument [k.data()] at 21 to
    28 (its closing parenthesis), the literal [0] at 31. *)
Definition image_code : string :=
  "QString t = img.text(k.data(), 0);" +:+ nl +:+ "return t;" +:+ nl.

Definition image_manager : SourceManager :=
  Fixture.manager [ ("/src/image.cpp", image_code) ] [].

Definition image_match : MatchResult :=
  {| Nodes := {[ "call" := StmtNode (ECall {| CallRange := Fixture.range 1 12 32 |});
                 "prevArg" := StmtNode (ECall {| CallRange := Fixture.range 1 21 28 |});
                 "arg" := StmtNode (EOther (Fixture.range 1 31 31)) ]};
     SrcMgr := image_manager |}.

(** The same call with a one-token first argument:

      /src/image.cpp:
        QString t = img.text(key, 0);

    The call is at offsets 12 to 27, [key] at 21, the literal [0] at 26. *)
Definition image_key_code : string :=
  "QString t = img.text(key, 0);" +:+ nl.

Definition image_key_manager : SourceManager :=
  Fixture.manager [ ("/src/image.cpp", image_key_code) ] [].

Definition image_key_match : MatchResult :=
  {| Nodes := {[ "call" := StmtNode (ECall {| CallRange := Fixture.range 1 12 27 |});
                 "prevArg" := StmtNode (EOther (Fixture.range 1 21 21));
                 "arg" := StmtNode (EOther (Fixture.range 1 26 26)) ]};
     SrcMgr := image_key_manager |}.

(** A call of [Qt::escape] whose closing parenthesis comes from a macro
    defined in a header, in dual mode:

      /src/esc.h:     #define ESC_END )
      /src/main.cpp:  QString s = Qt::escape(str ESC_END;

    The call starts in [main.cpp] at offset 12 and ends at the expansion of
    [ESC_END], spelled in [esc.h] at offset 16; the argument [str] is at
    offset 23 of [main.cpp]. *)
Definition dual_escape : Options :=
  {| SourceDir := "/src"; BuildPath := "/build"; CreateIfdefs := true;
     PortQMetaMethodSignature := false; PortQtEscape := true;
     PortAtomics := false; RenameEnum := ""; RenameMethod_Class := "";
     Rename_Old := ""; Rename_New := ""; Port_QImage_text := false;
     Port_QAbstractItemView_dataChanged := false;
     SourcePaths := ["/src/main.cpp"] |}.

Definition macro_end_manager : SourceManager :=
  Fixture.manager
    [ ("/src/main.cpp", "QString s = Qt::escape(str ESC_END;" +:+ nl);
      ("/src/esc.h", "#define ESC_END )" +:+ nl) ]
    [ (3, 0, (2, 16)) ].

Definition macro_end_match : MatchResult :=
  {| Nodes :=
       {[ "call" := StmtNode (ECall {| CallRange :=
                     {| RangeBegin := FileLoc 1 12; RangeEnd := MacroLoc 3 0 |} |});
          "expr" := StmtNode (EOther (Fixture.range 1 23 23)) ]};
     SrcMgr := macro_end_manager |}.

End Inputs.

(** ** The matchers of the other rule sets *)

(** How the first argument of a call looks to [portQtEscape]'s matcher: a
    bound temporary that has an operator call as a child, an operator call,
    a constructed object, or any other expression. *)
Inductive EscapeArgumentKind : Type :=
| BindTemporaryOfOperatorCall (Inner : Expr)
| OperatorCallExpr
| ConstructExpr
| OtherExpr.

(** What [portQtEscape]'s matcher binds for a call.  Whether the callee
    satisfies [hasName("::Qt::escape")] comes in as a flag; [hasArgument(0,
    ...)] needs a first argument, and [anyOf] takes the first alternative
    that matches, the last of which, [expr()], always does. *)
Definition portQtEscape_bindings (hasEscapeName : bool)
    (Arg0 : option (Expr * EscapeArgumentKind)) (Call : CallExpr)
  : option (gmap string DynTypedNode) :=
  if hasEscapeName then
    match Arg0 with
    | None => None
    | Some (Arg, Kind) =>
        let bound : gmap string DynTypedNode :=
          match Kind with
          | BindTemporaryOfOperatorCall Inner =>
              {["operator" := StmtNode Inner]}
          | OperatorCallExpr => {["operator" := StmtNode Arg]}
          | ConstructExpr => {["ctor" := StmtNode Arg]}
          | OtherExpr => {["expr" := StmtNode Arg]}
          end in
        Some (<["call" := StmtNode (ECall Call)]> bound)
    end
  else None.

(** What the two matchers of [portQImageText] bind for a call: the callee
    must satisfy [hasName("::QImage::text")] or
    [hasName("::QImage::setText")], there must be a first argument, bound as
    "prevArg", and a second one that is the integer literal 0, bound as
    "arg".  Each argument comes with the flag that tells whether it is that
    literal. *)
Definition portQImageText_bindings (hasTextName hasSetTextName : bool)
    (Args : list (Expr * bool)) (Call : CallExpr)
  : option (gmap string DynTypedNode) :=
  if hasTextName || hasSetTextName then
    match Args with
    | (PrevArg, _) :: (Arg, true) :: _ =>
        Some (<["call" := StmtNode (ECall Call)]>
                (<["prevArg" := StmtNode PrevArg]>
                   {["arg" := StmtNode Arg]}))
    | _ => None
    end
  else None.

(** ** Further inputs *)

Module MoreInputs.

(** The last line of a file that does not end in a line feed:

      /src/last.cpp:  QString s = Qt::escape(str);

    The call is at offsets 12 to 26. *)
Definition last_line_code : string := "QString s = Qt::escape(str);".

Definition last_line_manager : SourceManager :=
  Fixture.manager [ ("/src/last.cpp", last_line_code) ] [].

Definition last_line_call : CallExpr :=
  {| CallRange := Fixture.range 1 12 26 |}.

(** A read of a [QBasicAtomicInt] through its conversion to [int]:

      /src/atomic.cpp:  int v = ref;

    The call of the conversion operator has the extent of [ref], at offset
    8. *)
Definition atomic_code : string := "int v = ref;" +:+ nl.

Definition atomic_manager : SourceManager :=
  Fixture.manager [ ("/src/atomic.cpp", atomic_code) ] [].

Definition atomic_call : CallExpr := {| CallRange := Fixture.range 1 8 8 |}.

Definition atomic_match : MatchResult :=
  {| Nodes := {[ "call" := StmtNode (ECall atomic_call) ]};
     SrcMgr := atomic_manager |}.

(** [qt4to5 -rename-enum=Qt -rename-old=AlignLeft -rename-new=AlignLeading]
    on a reference to the enumerator with its qualifier:

      /src/align.cpp:  a = Qt::AlignLeft;

    The reference is at offsets 4 (the qualifier) to 8 (the name). *)
Definition align_code : string := "a = Qt::AlignLeft;" +:+ nl.

Definition align_manager : SourceManager :=
  Fixture.manager [ ("/src/align.cpp", align_code) ] [].

Definition align_ref : DeclRefExpr := {| DeclRefRange := Fixture.range 1 4 8 |}.

Definition align_match : MatchResult :=
  {| Nodes := {[ "call" := StmtNode (EDeclRef align_ref) ]};
     SrcMgr := align_manager |}.

(** A call of [QMetaMethod::signature]:

      /src/meta.cpp:  s = m.signature();

    The call is at offsets 4 to 16. *)
Definition meta_code : string := "s = m.signature();" +:+ nl.

Definition meta_manager : SourceManager :=
  Fixture.manager [ ("/src/meta.cpp", meta_code) ] [].

Definition meta_call : Expr := ECall {| CallRange := Fixture.range 1 4 16 |}.

Definition meta_match : MatchResult :=
  {| Nodes := {[ "call" := StmtNode meta_call ]}; SrcMgr := meta_manager |}.

(** A member call whose text does not hold the word [signature], the name
    of the method coming from a macro ([#define SIGNATURE signature]):

      /src/meta2.cpp:  s = m.SIGNATURE();

    The call is at offsets 4 to 16. *)
Definition meta_macro_code : string := "s = m.SIGNATURE();" +:+ nl.

Definition meta_macro_manager : SourceManager :=
  Fixture.manager [ ("/src/meta2.cpp", meta_macro_code) ] [].

Definition meta_macro_call : Expr :=
  ECall {| CallRange := Fixture.range 1 4 16 |}.

Definition meta_macro_match : MatchResult :=
  {| Nodes := {[ "call" := StmtNode meta_macro_call ]};
     SrcMgr := meta_macro_manager |}.

(** [qt4to5 -rename-class=Foo -rename-old=m -rename-new=n], not in dual
    mode. *)
Definition rename_m_plain : Options := with_CreateIfdefs false Inputs.rename_m.

(** The match for [d.m()] when [d] is a [Foo]: the callee satisfies
    [hasName("Foo::m")] and is a member access, so the first alternative of
    [portMethod]'s matcher binds it as "exact". *)
Definition exact_match (M : CXXMethodDecl) : MatchResult :=
  {| Nodes :=
       default ∅
         (portMethod_bindings true true (EMember (Inputs.use_callee M))
            Inputs.use_call);
     SrcMgr := Inputs.use_manager |}.

(** A call of [Foo::m] whose text does not hold [m], the name of the method
    coming from a macro ([#define CALL m]):

      /src/use2.cpp:  d.CALL();

    The call is at offsets 0 to 7. *)
Definition macro_name_manager : SourceManager :=
  Fixture.manager [ ("/src/use2.cpp", "d.CALL();" +:+ nl) ] [].

Definition macro_name_call : CallExpr :=
  {| CallRange := Fixture.range 1 0 7 |}.

Definition macro_name_match : MatchResult :=
  {| Nodes :=
       default ∅
         (portMethod_bindings true true
            (EMember {| MemberRange := Fixture.range 1 0 2;
                        getMemberDecl :=
                          MethodDecl (Inputs.method "Foo::m" []) |})
            macro_name_call);
     SrcMgr := macro_name_manager |}.

(** [qt4to5 -rename-old=m -rename-new=n]: no class is given. *)
Definition rename_m_any_class : Options :=
  {| SourceDir := "/src"; BuildPath := "/build"; CreateIfdefs := false;
     PortQMetaMethodSignature := false; PortQtEscape := false;
     PortAtomics := false; RenameEnum := ""; RenameMethod_Class := "";
     Rename_Old := "m"; Rename_New := "n"; Port_QImage_text := false;
     Port_QAbstractItemView_dataChanged := false;
     SourcePaths := ["/src/use.cpp"] |}.

(** [D::m] overrides [Other::m], a method of an unrelated class. *)
Definition overrides_Other : CXXMethodDecl :=
  Inputs.method "D::m" [Inputs.method "Other::m" []].

(** A build directory without a compilation database. *)
Definition fails_to_load (BuildPath : string) : option unit * string :=
  (None, "Could not auto-detect compilation database").

(** The declaration of [Inputs.list_decl], seen through a header of the
    library, outside the source root:

      /usr/include/qt4/QtGui/qlistview.h:  void dataChanged(); *)
Definition library_manager : SourceManager :=
  Fixture.manager
    [ ("/usr/include/qt4/QtGui/qlistview.h", "void dataChanged();" +:+ nl) ] [].

Definition library_match : MatchResult :=
  {| Nodes := {[ "funcDecl" := DeclNode Inputs.list_decl ]};
     SrcMgr := library_manager |}.

(** A call of [QImage::text] whose sentinel comes from a macro defined in a
    header ([#define NO_LANG 0]):

      /src/lang.h:     #define NO_LANG 0
      /src/image.cpp:  QString t = img.text(key, NO_LANG);

    [key] is at offset 21 of [image.cpp]; the literal is spelled in [lang.h]
    at offset 16. *)
Definition sentinel_macro_manager : SourceManager :=
  Fixture.manager
    [ ("/src/image.cpp", "QString t = img.text(key, NO_LANG);" +:+ nl);
      ("/src/lang.h", "#define NO_LANG 0" +:+ nl) ]
    [ (3, 0, (2, 16)) ].

Definition sentinel_macro_match : MatchResult :=
  {| Nodes :=
       {[ "call" := StmtNode (ECall {| CallRange := Fixture.range 1 12 33 |});
          "prevArg" := StmtNode (EOther (Fixture.range 1 21 21));
          "arg" := StmtNode (EOther {| RangeBegin := MacroLoc 3 0;
                                       RangeEnd := MacroLoc 3 0 |}) ]};
     SrcMgr := sentinel_macro_manager |}.

(** A match whose call has no valid location. *)
Definition nowhere_match : MatchResult :=
  {| Nodes :=
       {[ "call" := StmtNode (ECall {| CallRange :=
                     {| RangeBegin := InvalidLoc; RangeEnd := InvalidLoc |} |}) ]};
     SrcMgr := atomic_manager |}.

(** A call of [Qt::escape] whose argument ends in the expansion of a macro
    that is defined in a header:

      /src/names.h:   #define NAME title
      /src/main.cpp:  QString s = Qt::escape(obj.NAME);

    The call runs from offset 12 to the closing parenthesis at offset 31 of
    [main.cpp].  Its argument [obj.NAME] is a member access, bound as
    ["expr"]: it starts at offset 23 of [main.cpp], and its last token is
    spelled in [names.h] at offset 13. *)
Definition escape_member_manager : SourceManager :=
  Fixture.manager
    [ ("/src/main.cpp", "QString s = Qt::escape(obj.NAME);" +:+ nl);
      ("/src/names.h", "#define NAME title" +:+ nl) ]
    [ (3, 0, (2, 13)) ].

Definition escape_member_call : CallExpr :=
  {| CallRange := Fixture.range 1 12 31 |}.

Definition escape_member_arg : Expr :=
  EOther {| RangeBegin := FileLoc 1 23; RangeEnd := MacroLoc 3 0 |}.

Definition escape_member_match : MatchResult :=
  {| Nodes := {[ "call" := StmtNode (ECall escape_member_call);
                 "expr" := StmtNode escape_member_arg ]};
     SrcMgr := escape_member_manager |}.

End MoreInputs.
(** * Properties *)

(** ** Machine integers *)

Lemma u32_small (z : Z) : 0 <= z < 2 ^ 32 -> u32 z = z.
Proof. intros Hz. unfold u32. apply Z.mod_small. exact Hz. Qed.

Lemma i32_small (z : Z) : 0 <= z < 2 ^ 31 -> i32 z = z.
Proof.
  intros Hz. unfold i32. rewrite u32_small by lia.
  destruct (Z.ltb_spec z (2 ^ 31)); lia.
Qed.

(** The negation of an [unsigned] read as an [int] is the negative number. *)
Lemma i32_neg (z : Z) : 0 <= z < 2 ^ 31 -> i32 (- z) = - z.
Proof.
  intros Hz. unfold i32, u32.
  destruct (Z.eq_dec z 0) as [-> | Hnz]; [reflexivity |].
  replace (- z) with (2 ^ 32 - z + (-1) * 2 ^ 32) by ring.
  rewrite Z.mod_add by lia. rewrite Z.mod_small by lia.
  destruct (Z.ltb_spec (2 ^ 32 - z) (2 ^ 31)); lia.
Qed.

(** [-Column + 1] on [unsigned], passed as an [int]. *)
Lemma i32_line_offset (Column : Z) :
  1 <= Column <= 2 ^ 31 -> i32 (u32 (- Column) + 1) = 1 - Column.
Proof.
  intros Hc. unfold i32, u32.
  rewrite Z.add_mod_idemp_l by lia.
  replace (- Column + 1) with (- (Column - 1)) by ring.
  change ((- (Column - 1)) mod 2 ^ 32) with (u32 (- (Column - 1))).
  fold (i32 (- (Column - 1))). rewrite i32_neg by lia. ring.
Qed.

(** ** Strings *)

Section StringFacts.

Lemma append_nil_l (s : string) : "" +:+ s = s.
Proof. reflexivity. Qed.

Lemma append_cons (x : ascii) (a b : string) :
  String x a +:+ b = String x (a +:+ b).
Proof. reflexivity. Qed.

Lemma append_assoc (a b c : string) : (a +:+ b) +:+ c = a +:+ (b +:+ c).
Proof.
  induction a as [| x a IH]; [reflexivity |].
  rewrite !append_cons. now f_equal.
Qed.

Lemma append_empty_r (s : string) : s +:+ "" = s.
Proof.
  induction s as [| x s IH]; [reflexivity |].
  rewrite append_cons. now f_equal.
Qed.

Lemma length_append (a b : string) :
  String.length (a +:+ b) = (String.length a + String.length b)%nat.
Proof.
  induction a as [| x a IH]; [reflexivity |].
  rewrite append_cons. simpl. now f_equal.
Qed.

Lemma str_take_drop (n : nat) (s : string) : str_take n s +:+ str_drop n s = s.
Proof.
  revert s. induction n as [| n IH]; intros [| c s]; simpl; try reflexivity.
  rewrite append_cons. f_equal. apply IH.
Qed.

Lemma str_take_append (a b : string) : str_take (String.length a) (a +:+ b) = a.
Proof.
  induction a as [| x a IH]; [now destruct b |].
  rewrite append_cons. simpl. now f_equal.
Qed.

Lemma str_drop_append (a b : string) : str_drop (String.length a) (a +:+ b) = b.
Proof.
  induction a as [| x a IH]; [now destruct b |].
  rewrite append_cons. simpl. exact IH.
Qed.

Lemma str_drop_0 (s : string) : str_drop 0 s = s.
Proof. now destruct s. Qed.

Lemma str_take_0 (s : string) : str_take 0 s = "".
Proof. now destruct s. Qed.

Lemma str_drop_add (n m : nat) (s : string) :
  str_drop (n + m) s = str_drop m (str_drop n s).
Proof.
  revert s. induction n as [| n IH]; intros s; simpl.
  - reflexivity.
  - destruct s as [| c s]; [now destruct m | apply IH].
Qed.

Lemma empty_true (s : string) : empty s = true <-> s = "".
Proof. destruct s; simpl; split; intros H; congruence. Qed.

Lemma empty_false (s : string) : empty s = false <-> s <> "".
Proof. destruct s; simpl; split; intros H; congruence. Qed.

(** [String.prefix] finds a leading copy of the pattern. *)
Lemma prefix_append (pat s : string) :
  String.prefix pat s = true <-> exists rest, s = pat +:+ rest.
Proof.
  revert s. induction pat as [| x pat IH]; intros s.
  - split; [intros _; now exists s | intros _; now destruct s].
  - destruct s as [| y s]; simpl.
    + split; [discriminate | intros [r Hr]; discriminate].
    + destruct (ascii_dec x y) as [-> | Hxy].
      * rewrite IH. split; intros [r Hr]; exists r.
        -- rewrite append_cons. congruence.
        -- rewrite append_cons in Hr. congruence.
      * split; [discriminate |].
        intros [r Hr]. rewrite append_cons in Hr. congruence.
Qed.

Lemma find_from_eq (pat s : string) (i : nat) :
  find_from pat s i =
  if String.prefix pat s then Some i
  else match s with
       | "" => None
       | String _ s' => find_from pat s' (S i)
       end.
Proof. destruct s; reflexivity. Qed.

(** A successful [find] splits the text around the pattern. *)
Lemma find_from_Some (pat s : string) (i p : nat) :
  find_from pat s i = Some p ->
  exists before after,
    s = before +:+ pat +:+ after /\ p = (i + String.length before)%nat.
Proof.
  revert i. induction s as [| c s IH]; intros i; rewrite find_from_eq.
  - destruct (String.prefix pat "") eqn:Hp; [| discriminate].
    intros [= <-]. apply prefix_append in Hp as [r Hr].
    exists "", r. simpl. split; [exact Hr | lia].
  - destruct (String.prefix pat (String c s)) eqn:Hp.
    + intros [= <-]. apply prefix_append in Hp as [r Hr].
      exists "", r. simpl. split; [exact Hr | lia].
    + intros H. apply IH in H as (b & a & -> & ->).
      exists (String c b), a. simpl. split; [reflexivity | lia].
Qed.

(** A failed [find] means the pattern occurs nowhere. *)
Lemma find_from_None (pat s : string) (i : nat) :
  find_from pat s i = None ->
  forall before after, s <> before +:+ pat +:+ after.
Proof.
  revert i. induction s as [| c s IH]; intros i; rewrite find_from_eq.
  - destruct (String.prefix pat "") eqn:Hp; [discriminate |].
    intros _ b a Heq. destruct b as [| x b]; [| discriminate].
    rewrite append_nil_l in Heq.
    assert (String.prefix pat "" = true) by (apply prefix_append; eauto).
    congruence.
  - destruct (String.prefix pat (String c s)) eqn:Hp; [discriminate |].
    intros H b a Heq. destruct b as [| x b].
    + rewrite append_nil_l in Heq.
      assert (String.prefix pat (String c s) = true)
        by (apply prefix_append; eauto).
      congruence.
    + rewrite append_cons in Heq. injection Heq as _ Heq.
      exact (IH _ H b a Heq).
Qed.

Lemma find_occurs (s pat : string) :
  notnull (find s pat) = true <->
  exists before after, s = before +:+ pat +:+ after.
Proof.
  unfold find. split.
  - destruct (find_from pat s 0) eqn:H; [| discriminate].
    intros _. apply find_from_Some in H as (b & a & Hs & _). eauto.
  - intros (b & a & Hs). destruct (find_from pat s 0) eqn:H; [reflexivity |].
    exfalso. exact (find_from_None _ _ _ H b a Hs).
Qed.

End StringFacts.

(** ** The outcome monad *)

Lemma bind_Done {A B : Type} (a : A) (k : A -> Outcome B) :
  (Done a ≫= k) = k a.
Proof. reflexivity. Qed.

Lemma bind_Crash {A B : Type} (f : Fault) (k : A -> Outcome B) :
  (Crash f ≫= k) = Crash f.
Proof. reflexivity. Qed.

Lemma bind_inv_Done {A B : Type} (m : Outcome A) (k : A -> Outcome B) (b : B) :
  (m ≫= k) = Done b -> exists a, m = Done a /\ k a = Done b.
Proof. destruct m as [a | f]; [eauto | discriminate]. Qed.

Lemma bind_inv_Crash {A B : Type} (m : Outcome A) (k : A -> Outcome B)
    (f : Fault) :
  (m ≫= k) = Crash f -> m = Crash f \/ exists a, m = Done a /\ k a = Crash f.
Proof. destruct m as [a | g]; [eauto | intros [= ->]; now left]. Qed.

(** Run the binds whose first action has ended. *)
Ltac run_binds :=
  repeat (first [rewrite bind_Done | rewrite bind_Crash]; cbn beta).

(** ** The edit collector *)

Lemma AddReplacement_Some (E : FileEntry) (R : Replacement)
    (Replace : ReplacementsMap) :
  AddReplacement (Some E) R Replace =
  Done (<[getName E := (edits_of Replace (getName E) ++ [R])%list]> Replace).
Proof. reflexivity. Qed.

Lemma edits_of_insert (Replace : ReplacementsMap) (Name : string)
    (l : list Replacement) :
  edits_of (<[Name := l]> Replace) Name = l.
Proof. unfold edits_of. now rewrite lookup_insert_eq. Qed.

Lemma edits_of_insert_ne (Replace : ReplacementsMap) (Name Other : string)
    (l : list Replacement) :
  Name <> Other -> edits_of (<[Name := l]> Replace) Other = edits_of Replace Other.
Proof. intros Hne. unfold edits_of. now rewrite lookup_insert_ne. Qed.

(** Adding an edit never fails with anything but a missing file entry, and
    it only ever extends the list of one file. *)
Lemma AddReplacement_Crash (Entry : option FileEntry) (R : Replacement)
    (Replace : ReplacementsMap) (f : Fault) :
  AddReplacement Entry R Replace = Crash f -> f = NullFileEntry.
Proof. destruct Entry; simpl; [discriminate | congruence]. Qed.

(** ** Dispatch in [main] *)

Lemma matchName_eq (Opts : Options) :
  ((if 0 <? size (RenameMethod_Class Opts) then RenameMethod_Class Opts else "")
     +:+ ("::" +:+ Rename_Old Opts)) =
  RenameMethod_Class Opts +:+ "::" +:+ Rename_Old Opts.
Proof.
  destruct (RenameMethod_Class Opts) as [| c s] eqn:E; [reflexivity |].
  unfold size. simpl String.length.
  destruct (Z.ltb_spec 0 (Z.of_nat (S (String.length s)))); [reflexivity | lia].
Qed.

(** C9, as stated, fails: with [-rename-enum] given, a run that returns 1
    makes the exit code 1 although a selector applies. *)
Lemma main_exit_1_with_selector :
  negb (String.eqb (RenameEnum Inputs.enum_and_escape) "") = true /\
  main Inputs.enum_and_escape unit Inputs.loads Inputs.run_fails
  = ([EnumFinder "Qt::AlignLeft"], Return 1).
Proof. split; reflexivity. Qed.

(** C9 (amended): once the compilation database is loaded, no fatal error is
    reported however many selectors are given, and [main] runs the finder of
    the first selector, in the fixed order of priority, that applies, and
    only that one; the exit code is the result of that run (whatever it is),
    and it is the constant 1, with nothing run, when no selector applies. *)
Theorem main_dispatch_priority (Opts : Options) (CompilationDatabase : Type)
    (loadFromDirectory : string -> option CompilationDatabase * string)
    (ToolRun : CompilationDatabase -> list string -> Finder -> Z)
    (Compilations : CompilationDatabase) (ErrorMessage : string) :
  loadFromDirectory (BuildPath Opts) = (Some Compilations, ErrorMessage) ->
  main Opts CompilationDatabase loadFromDirectory ToolRun =
  match List.find fst (selectors Opts) with
  | Some (_, F) => ([F], Return (ToolRun Compilations (SourcePaths Opts) F))
  | None => ([], Return 1)
  end.
Proof.
  intros Hload. unfold main. rewrite Hload.
  unfold selectors, portEnum, portMethod, portQMetaMethodSignature,
    portQtEscape, portAtomics, portQImageText, portViewDataChanged.
  rewrite matchName_eq. cbn [List.find fst snd].
  destruct (negb (String.eqb (RenameEnum Opts) "")); [reflexivity |].
  destruct (negb (String.eqb (Rename_Old Opts) "")
            && negb (String.eqb (Rename_New Opts) "")); [reflexivity |].
  destruct (PortQMetaMethodSignature Opts); [reflexivity |].
  destruct (PortQtEscape Opts); [reflexivity |].
  destruct (PortAtomics Opts); [reflexivity |].
  destruct (Port_QImage_text Opts); [reflexivity |].
  destruct (Port_QAbstractItemView_dataChanged Opts); reflexivity.
Qed.

Lemma main_dispatch_priority_witness :
  Inputs.loads (BuildPath Inputs.enum_and_escape) = (Some tt, "") /\
  main Inputs.enum_and_escape unit Inputs.loads (fun _ _ _ => 0)
  = ([EnumFinder "Qt::AlignLeft"], Return 0).
Proof.
  split; [reflexivity |].
  exact (main_dispatch_priority Inputs.enum_and_escape unit Inputs.loads
           (fun _ _ _ => 0) tt "" eq_refl).
Defined.

(** ** Text extraction *)

Section GetText.
Context {T : Type} `{Located T}.
Variable SM : SourceManager.
Variable Node : T.

Let StartSpelling := getSpellingLoc SM (getLocStart Node).
Let EndSpelling := getSpellingLoc SM (getLocEnd Node).
Let TokenEnd := getLocForEndOfToken SM EndSpelling.

Lemma getText_invalid_location :
  isValid StartSpelling = false \/ isValid EndSpelling = false ->
  getText SM Node = "".
Proof.
  unfold getText. fold StartSpelling EndSpelling.
  intros [-> | ->]; [reflexivity | now rewrite orb_true_r].
Qed.

Lemma getText_invalid_buffer :
  snd (getCharacterData SM StartSpelling) = true -> getText SM Node = "".
Proof.
  unfold getText. fold StartSpelling EndSpelling. intros Hbuf.
  destruct (negb (isValid StartSpelling) || negb (isValid EndSpelling));
    [reflexivity |].
  destruct (getCharacterData SM StartSpelling) as [Text Invalid].
  simpl in Hbuf. now rewrite Hbuf.
Qed.

Lemma getText_different_files :
  fst (getDecomposedLoc StartSpelling) <> fst (getDecomposedLoc TokenEnd) ->
  getText SM Node = "".
Proof.
  unfold getText. fold StartSpelling EndSpelling TokenEnd. intros Hne.
  destruct (negb (isValid StartSpelling) || negb (isValid EndSpelling));
    [reflexivity |].
  destruct (getCharacterData SM StartSpelling) as [Text [|]]; [reflexivity |].
  apply Z.eqb_neq in Hne. now rewrite Hne.
Qed.

Lemma getText_end_before_start :
  snd (getDecomposedLoc TokenEnd) < snd (getDecomposedLoc StartSpelling) ->
  getText SM Node = "".
Proof.
  unfold getText. fold StartSpelling EndSpelling TokenEnd. intros Hlt.
  destruct (negb (isValid StartSpelling) || negb (isValid EndSpelling));
    [reflexivity |].
  destruct (getCharacterData SM StartSpelling) as [Text [|]]; [reflexivity |].
  destruct (negb _); [reflexivity |].
  apply Z.ltb_lt in Hlt. now rewrite Hlt.
Qed.

End GetText.

(** ** An empty extraction skips the match

    Five of the callbacks that extract text leave when the text is empty and
    add no edit; [RemoveArgument] extracts no text. *)

Section Skips.
Variable Opts : Options.
Variable Result : MatchResult.
Variable Replace : ReplacementsMap.

Lemma PortMetaMethods_skips (Call : Expr) :
  getNodeAs_Expr Result "call" = Some Call ->
  getText (SrcMgr Result) Call = "" ->
  PortMetaMethods_run Opts Result Replace = Done Replace.
Proof. intros HC HT. unfold PortMetaMethods_run. rewrite HC. cbn [deref]. now rewrite bind_Done, HT. Qed.

Lemma PortAtomic_skips (Call : CallExpr) :
  getNodeAs_CallExpr Result "call" = Some Call ->
  getText (SrcMgr Result) Call = "" ->
  PortAtomic_run Opts Result Replace = Done Replace.
Proof. intros HC HT. unfold PortAtomic_run. rewrite HC. cbn [deref]. now rewrite bind_Done, HT. Qed.

Lemma PortEnum_skips (Call : DeclRefExpr) :
  getNodeAs_DeclRefExpr Result "call" = Some Call ->
  getText (SrcMgr Result) Call = "" ->
  PortEnum_run Opts Result Replace = Done Replace.
Proof. intros HC HT. unfold PortEnum_run. rewrite HC. cbn [deref]. now rewrite bind_Done, HT. Qed.

(** The argument whose text [PortQtEscape4To5] extracts: the constructed
    temporary if bound, else the plain expression, else the operator call. *)
Lemma PortQtEscape4To5_skips (Arg : Expr) :
  match getNodeAs_Expr Result "ctor", getNodeAs_Expr Result "expr" with
  | Some CTor, _ => Some CTor
  | None, Some E => Some E
  | None, None => getNodeAs_Expr Result "operator"
  end = Some Arg ->
  getText (SrcMgr Result) Arg = "" ->
  PortQtEscape4To5_run Opts Result Replace = Done Replace.
Proof.
  intros HA HT. unfold PortQtEscape4To5_run.
  destruct (getNodeAs_Expr Result "ctor") as [c |].
  - injection HA as ->. now rewrite bind_Done, HT.
  - destruct (getNodeAs_Expr Result "expr") as [e |].
    + injection HA as ->. now rewrite bind_Done, HT.
    + rewrite HA. cbn [deref]. rewrite bind_Done.
      unfold mret, Outcome_ret. now rewrite bind_Done, HT.
Qed.

Lemma PortRenamedMethods_skips (Call : CallExpr) :
  getNodeAs_CallExpr Result "call" = Some Call ->
  getText (SrcMgr Result) Call = "" ->
  PortRenamedMethods_run Opts Result Replace = Done Replace \/
  exists f, PortRenamedMethods_run Opts Result Replace = Crash f.
Proof.
  intros HC HT. unfold PortRenamedMethods_run.
  match goal with |- context [mbind _ ?m] => destruct m as [ov | f] end;
    [| right; eauto].
  left. rewrite bind_Done.
  destruct (negb _); [reflexivity |]. rewrite HC. cbn [deref].
  now rewrite bind_Done, HT.
Qed.

End Skips.

(** C1: the last parameter of [Inputs.view_decl] starts and ends in different
    files, so its extracted text is empty, and yet [PortView2::run] adds an
    edit for it: one that puts the new parameter, with nothing before the
    comma, over a range whose length is -1 as an [unsigned]. *)
Theorem PortView2_edits_on_empty_extraction :
  getText Inputs.view_manager Inputs.view_last_param = "" /\
  PortView2_run Fixture.options Inputs.view_match ∅ =
  Done {[ "/src/view.h" :=
            [ {| getFilePath := "/src/view.h";
                 getOffset := 39;
                 getLength := 4294967295;
                 getReplacementText :=
                   ", const QVector<int> & = QVector<int>()" |} ] ]}.
Proof. split; vm_compute; reflexivity. Qed.

(** ** The faults of the wrapper *)

Lemma scan_eol_Crash (Rest : string) (eol : nat) (f : Fault) :
  scan_eol Rest eol = Crash f -> f = BufferOverrun.
Proof.
  revert eol. induction Rest as [| c Rest IH]; intros eol; simpl.
  - congruence.
  - destruct (Ascii.eqb c "010"); [discriminate | apply IH].
Qed.

Lemma find_eol_Crash (Text : string) (eol : Z) (f : Fault) :
  find_eol Text eol = Crash f -> f = BufferOverrun.
Proof.
  unfold find_eol. intros H. apply bind_inv_Crash in H as [H | (n & _ & H)].
  - eapply scan_eol_Crash, H.
  - discriminate.
Qed.

Lemma insertIfdef_Crash {T : Type} `{Located T} (SM : SourceManager) (Node : T)
    (Replace : ReplacementsMap) (f : Fault) :
  insertIfdef SM Node Replace = Crash f ->
  f = BufferOverrun \/ f = NullFileEntry.
Proof.
  unfold insertIfdef.
  destruct (negb _ || negb _); [discriminate |].
  destruct (getSpellingColumnNumber _ _) as [Column [|]]; [discriminate |].
  destruct (getCharacterData _ _) as [Text Invalid].
  destruct (negb _); [discriminate |].
  destruct (_ <? _); [discriminate |].
  intros H1. apply bind_inv_Crash in H1 as [H1 | (eol & _ & H1)].
  - left. eapply find_eol_Crash, H1.
  - right. apply bind_inv_Crash in H1 as [H1 | (R1 & _ & H1)];
      eapply AddReplacement_Crash; eassumption.
Qed.

(** ** The parameter read by [PortView2::run] *)

(** With at least one parameter, index [getNumParams() - 1] is the last
    parameter. *)
Lemma getParamDecl_last (F : CXXMethodDecl) :
  Params F <> [] ->
  exists P, getParamDecl F (u32 (getNumParams F - 1)) = Done P.
Proof.
  intros Hne. unfold getParamDecl, getNumParams.
  set (n := length (Params F)).
  assert (Hn : (0 < n)%nat).
  { subst n. destruct (Params F); [congruence | simpl; lia]. }
  assert (Hi : 0 <= u32 (Z.of_nat n - 1) < Z.of_nat n).
  { unfold u32. pose proof (Z.mod_pos_bound (Z.of_nat n - 1) (2 ^ 32)).
    destruct (Z.lt_ge_cases (Z.of_nat n - 1) (2 ^ 32)).
    - rewrite Z.mod_small; lia.
    - lia. }
  destruct (Z.ltb_spec (u32 (Z.of_nat n - 1)) (Z.of_nat n)); [| lia].
  destruct (Params F !! Z.to_nat (u32 (Z.of_nat n - 1))) eqn:E;
    [simpl; eauto |].
  apply lookup_ge_None in E. fold n in E. lia.
Qed.

(** Without parameters the index wraps around to [2^32 - 1] and the read is
    out of range. *)
Lemma getParamDecl_none (F : CXXMethodDecl) :
  Params F = [] ->
  getParamDecl F (u32 (getNumParams F - 1)) = Crash IllegalParam.
Proof. intros HP. unfold getParamDecl, getNumParams. now rewrite HP. Qed.

(** C10: [PortView2::run] reads the parameter at index
    [getNumParams() - 1] without a check.  For a declaration that passed the
    location and source root tests, the read leaves the defined behaviour
    of [getParamDecl] exactly when the declaration has no parameters. *)
Theorem PortView2_param_read_precondition (Opts : Options)
    (Result : MatchResult) (Replace : ReplacementsMap) (F : CXXMethodDecl)
    (Entry : FileEntry) :
  getNodeAs_CXXMethodDecl Result "funcDecl" = Some F ->
  isValid (getSpellingLoc (SrcMgr Result) (getLocStart F)) = true ->
  getFileEntryForID (SrcMgr Result)
    (fst (getDecomposedLoc (getSpellingLoc (SrcMgr Result) (getLocStart F))))
    = Some Entry ->
  startswith (getName Entry) (SourceDir Opts) = true ->
  (PortView2_run Opts Result Replace = Crash IllegalParam <-> Params F = []).
Proof.
  intros HF Hvalid HEntry Hroot. unfold PortView2_run.
  rewrite HF. cbn [deref]. rewrite bind_Done, Hvalid. cbn [negb].
  rewrite HEntry, Hroot. cbn [negb]. split.
  - intros Hrun. destruct (Params F) as [| P0 Ps] eqn:HP; [reflexivity |].
    exfalso.
    destruct (getParamDecl_last F) as [P HPd]; [congruence |].
    rewrite HPd, bind_Done in Hrun.
    apply bind_inv_Crash in Hrun as [Hrun | (R1 & _ & Hrun)].
    + apply AddReplacement_Crash in Hrun. discriminate.
    + destruct (CreateIfdefs Opts); [| discriminate].
      apply insertIfdef_Crash in Hrun as [? | ?]; discriminate.
  - intros HP. now rewrite (getParamDecl_none F HP).
Qed.

Lemma PortView2_param_read_precondition_witness :
  PortView2_run Fixture.options Inputs.list_match ∅ = Crash IllegalParam.
Proof.
  apply (PortView2_param_read_precondition Fixture.options Inputs.list_match
           ∅ Inputs.list_decl {| getName := "/src/list.h" |});
    reflexivity.
Defined.

(** ** Resolved extents *)

Section Resolved.
Context {T : Type} `{Located T}.
Variable SM : SourceManager.
Variable Node : T.
Variables (F : FileID) (s e' : Z).
Hypothesis Hres : resolves SM Node F s e'.

Lemma resolves_token_end :
  getDecomposedLoc
    (getLocForEndOfToken SM (getSpellingLoc SM (getLocEnd Node))) = (F, e').
Proof.
  destruct Hres as (e & _ & -> & Hlen & -> & _).
  unfold getLocForEndOfToken, MeasureTokenLength.
  destruct (Z.ltb_spec 0 (TokenLength SM F e)); simpl; f_equal; lia.
Qed.

(** The extracted text of a resolved node is the text of its extent. *)
Lemma getText_resolves (buf : string) :
  Buffer SM F = Some buf -> getText SM Node = text_between buf s e'.
Proof.
  intros Hbuf. unfold getText. rewrite resolves_token_end.
  destruct Hres as (e & -> & -> & Hlen & -> & Hs & He).
  cbn [isValid negb orb]. unfold getCharacterData.
  cbn [getSpellingLoc getDecomposedLoc fst snd]. rewrite Hbuf.
  rewrite Z.eqb_refl. cbn [negb].
  destruct (Z.ltb_spec (e + TokenLength SM F e) s); [lia |].
  unfold std_string, text_between. now rewrite u32_small by lia.
Qed.

(** The replacement of a resolved node covers its extent. *)
Lemma ReplacementOfNode_resolves (ReplacementText : string) :
  ReplacementOfNode SM Node ReplacementText =
  {| getFilePath :=
       match getFileEntryForID SM F with Some E => getName E | None => "" end;
     getOffset := s;
     getLength := e' - s;
     getReplacementText := ReplacementText |}.
Proof.
  destruct Hres as (e & Hstart & Hend & Hlen & -> & Hs & He).
  unfold ReplacementOfNode, setFromSourceRange, setFromSourceLocation,
    getRangeSize, getSourceRange.
  cbn [getBegin getEnd isTokenRange RangeBegin RangeEnd].
  rewrite Hstart, Hend. cbn [getSpellingLoc getDecomposedLoc fst snd].
  rewrite Z.eqb_refl. cbn [negb MeasureTokenLength].
  rewrite (u32_small (e + _)) by lia.
  rewrite i32_small by lia. now rewrite u32_small by lia.
Qed.

End Resolved.

(** Applying a replacement changes the text of its range and nothing else. *)
Lemma apply_frame (R : Replacement) (Before Old After : string) :
  getOffset R = size Before ->
  getLength R = size Old ->
  apply R (Before +:+ Old +:+ After)
  = Before +:+ getReplacementText R +:+ After.
Proof.
  intros Hoff Hlen. unfold apply, size in *. rewrite Hoff, Hlen, !Nat2Z.id.
  rewrite str_take_append, str_drop_add, str_drop_append, str_drop_append.
  reflexivity.
Qed.

(** ** The [Qt::escape] rule *)

(** C5, as stated, fails: in [Qt::escape(obj.NAME)], with [NAME] a macro of a
    header, the call is matched and its argument is bound as a plain
    expression, but the text of the argument cannot be extracted and the
    callback, by its test [if (ArgText.empty()) return;], leaves the call as
    it is - in either mode. *)
Lemma escape_call_left_unreplaced :
  getNodeAs_CallExpr MoreInputs.escape_member_match "call"
  = Some MoreInputs.escape_member_call /\
  EscapeArgument MoreInputs.escape_member_match MoreInputs.escape_member_arg
    false /\
  PortQtEscape4To5_run Fixture.options MoreInputs.escape_member_match ∅
  = Done ∅ /\
  PortQtEscape4To5_run Inputs.dual_escape MoreInputs.escape_member_match ∅
  = Done ∅.
Proof.
  split; [reflexivity |]. split; [now apply Argument_expr |].
  split; vm_compute; reflexivity.
Qed.

(** C5 (amended): for a matched call whose argument text is extracted - is
    not empty -, whose own first token and last token are spelled in one
    file, the last one ending at or after the start of the first, at offsets
    below [2^31], and whose start location lies in a file that has a file
    entry, the edit of the callback replaces exactly the bytes of the call:
    by the argument text followed by [.toHtmlEscaped()] when the argument is
    bound as a plain expression, and by [QString(] argument text
    [).toHtmlEscaped()] when it is bound as a constructed temporary or an
    operator call.  In dual mode the outcome is that of the wrapper, applied
    to the call once this edit is recorded. *)
Theorem PortQtEscape4To5_rewrites_call (Opts : Options) (Result : MatchResult)
    (Replace : ReplacementsMap) (Call : CallExpr) (Arg : Expr)
    (wrapped : bool) (Entry : FileEntry) (F : FileID) (s e' : Z) :
  getNodeAs_CallExpr Result "call" = Some Call ->
  EscapeArgument Result Arg wrapped ->
  getText (SrcMgr Result) Arg <> "" ->
  resolves (SrcMgr Result) Call F s e' ->
  getFileEntryForID (SrcMgr Result) (getFileID (getLocStart Call)) = Some Entry ->
  let ArgText := getText (SrcMgr Result) Arg in
  let output :=
    if wrapped then "QString(" +:+ ArgText +:+ ").toHtmlEscaped()"
    else ArgText +:+ ".toHtmlEscaped()" in
  let Edit :=
    {| getFilePath :=
         match getFileEntryForID (SrcMgr Result) F with
         | Some E => getName E
         | None => ""
         end;
       getOffset := s;
       getLength := e' - s;
       getReplacementText := output |} in
  let Replace1 :=
    <[getName Entry := (edits_of Replace (getName Entry) ++ [Edit])%list]>
      Replace in
  PortQtEscape4To5_run Opts Result Replace =
  if CreateIfdefs Opts then insertIfdef (SrcMgr Result) Call Replace1
  else Done Replace1.
Proof.
  intros HCall HArg HText Hres HEntry ArgText output Edit Replace1.
  apply empty_false in HText.
  unfold PortQtEscape4To5_run. cbv zeta. rewrite HCall.
  assert (HEdit : forall t, ReplacementOfNode (SrcMgr Result) Call t =
                            {| getFilePath := getFilePath Edit;
                               getOffset := s; getLength := e' - s;
                               getReplacementText := t |})
    by (intros t; apply (ReplacementOfNode_resolves _ _ _ _ _ Hres)).
  inversion HArg as [A HO HC HE | A HC HE HO | A HE HC HO]; subst A wrapped;
    rewrite ?HC, ?HE, ?HO; cbn [deref notnull orb];
    unfold mret, Outcome_ret; rewrite ?bind_Done;
    rewrite HText, ?bind_Done, HEntry, AddReplacement_Some, ?bind_Done, HEdit;
    reflexivity.
Qed.

Lemma PortQtEscape4To5_rewrites_call_witness :
  let plain :=
    {| getFilePath := "/src/main.cpp"; getOffset := 12; getLength := 15;
       getReplacementText := "str.toHtmlEscaped()" |} in
  let sum :=
    {| getFilePath := "/src/main.cpp"; getOffset := 14; getLength := 17;
       getReplacementText := "QString(a + b).toHtmlEscaped()" |} in
  (PortQtEscape4To5_run Fixture.options Inputs.escape_plain_match ∅
   = Done {[ "/src/main.cpp" := [plain] ]} /\
   apply plain ("QString s = Qt::escape(str);" +:+ nl)
   = "QString s = str.toHtmlEscaped();" +:+ nl) /\
  (PortQtEscape4To5_run Fixture.options Inputs.escape_sum_match ∅
   = Done {[ "/src/main.cpp" := [sum] ]} /\
   apply sum ("  QString s = Qt::escape(a + b);" +:+ nl)
   = "  QString s = QString(a + b).toHtmlEscaped();" +:+ nl).
Proof.
  intros plain sum. split; (split; [| reflexivity]).
  - rewrite (PortQtEscape4To5_rewrites_call Fixture.options
               Inputs.escape_plain_match ∅ Inputs.escape_plain_call
               (EOther (Fixture.range 1 23 23)) false
               {| getName := "/src/main.cpp" |} 1 12 27).
    + vm_compute. reflexivity.
    + reflexivity.
    + now apply Argument_expr.
    + vm_compute. discriminate.
    + exists 26. vm_compute. repeat split; congruence.
    + reflexivity.
  - rewrite (PortQtEscape4To5_rewrites_call Fixture.options
               Inputs.escape_sum_match ∅ Inputs.escape_sum_call
               (ECall {| CallRange := Fixture.range 1 25 29 |}) true
               {| getName := "/src/main.cpp" |} 1 14 31).
    + vm_compute. reflexivity.
    + reflexivity.
    + now apply Argument_operator.
    + vm_compute. discriminate.
    + exists 30. vm_compute. repeat split; congruence.
    + reflexivity.
Defined.

(** ** The [dataChanged] rule *)

Lemma getParamDecl_is_last (F : CXXMethodDecl) (P : ParmVarDecl) :
  last (Params F) = Some P ->
  getNumParams F < 2 ^ 32 ->
  getParamDecl F (u32 (getNumParams F - 1)) = Done P.
Proof.
  intros Hlast Hn. unfold getParamDecl, getNumParams in *.
  rewrite last_lookup in Hlast.
  assert (Hpos : (0 < length (Params F))%nat).
  { destruct (Params F); [discriminate | simpl; lia]. }
  rewrite u32_small by lia.
  destruct (Z.ltb_spec (Z.of_nat (length (Params F)) - 1)
              (Z.of_nat (length (Params F)))); [| lia].
  replace (Z.to_nat (Z.of_nat (length (Params F)) - 1))
    with (pred (length (Params F))) by lia.
  now rewrite Hlast.
Qed.

Lemma NewArg_default (F : CXXMethodDecl) :
  (if negb (isThisDeclarationADefinition F) || hasInlineBody F
   then "const QVector<int> &" +:+ " = QVector<int>()"
   else "const QVector<int> &")
  = "const QVector<int> &" +:+
    (if isOutOfLineDefinition F then "" else " = QVector<int>()").
Proof.
  unfold isOutOfLineDefinition.
  destruct (isThisDeclarationADefinition F), (hasInlineBody F); reflexivity.
Qed.

(** C7, as stated, fails: the declaration of [Inputs.view_match] is matched
    and lies under the source root, its last parameter is written
    [const QModelIndex & NAME], and the replacement the callback adds holds
    the new parameter alone, behind a comma, not the text of the last
    parameter followed by it; the matched declaration of [Inputs.list_match]
    has no parameter, and the callback adds no replacement at all. *)
Lemma last_parameter_text_not_kept :
  text_between
    ("void dataChanged(const QModelIndex &a, const QModelIndex & NAME);" +:+ nl)
    39 63
  = "const QModelIndex & NAME" /\
  PortView2_run Fixture.options Inputs.view_match ∅ =
  Done {[ "/src/view.h" :=
            [ {| getFilePath := "/src/view.h";
                 getOffset := 39;
                 getLength := 4294967295;
                 getReplacementText :=
                   ", const QVector<int> & = QVector<int>()" |} ] ]} /\
  PortView2_run Fixture.options Inputs.list_match ∅ = Crash IllegalParam.
Proof. repeat split; vm_compute; reflexivity. Qed.

(** C7 (amended): for a matched declaration that starts at a valid location
    of a file under the source root, that has at least one and fewer than
    [2^32] parameters, and whose last parameter has its first and its last
    token spelled in one file with an available buffer - the last token
    ending at or after the start of the first, at offsets below [2^31] - and
    starts at a location of a file that has a file entry, the edit of the
    callback replaces exactly the bytes of the last parameter by these bytes
    followed by [, const QVector<int> &], and by the default value
    [ = QVector<int>()] exactly when the declaration is not an out-of-line
    definition.  In dual mode the outcome is that of the wrapper, applied to
    the parameter once this edit is recorded. *)
Theorem PortView2_appends_parameter (Opts : Options) (Result : MatchResult)
    (Replace : ReplacementsMap) (F : CXXMethodDecl) (Entry : FileEntry)
    (P : ParmVarDecl) (PF : FileID) (s e' : Z) (buf : string)
    (PEntry : FileEntry) :
  getNodeAs_CXXMethodDecl Result "funcDecl" = Some F ->
  isValid (getSpellingLoc (SrcMgr Result) (getLocStart F)) = true ->
  getFileEntryForID (SrcMgr Result)
    (fst (getDecomposedLoc (getSpellingLoc (SrcMgr Result) (getLocStart F))))
    = Some Entry ->
  startswith (getName Entry) (SourceDir Opts) = true ->
  last (Params F) = Some P ->
  getNumParams F < 2 ^ 32 ->
  resolves (SrcMgr Result) P PF s e' ->
  Buffer (SrcMgr Result) PF = Some buf ->
  getFileEntryForID (SrcMgr Result) (getFileID (getLocStart P)) = Some PEntry ->
  let ParamText := text_between buf s e' in
  let Edit :=
    {| getFilePath :=
         match getFileEntryForID (SrcMgr Result) PF with
         | Some E => getName E
         | None => ""
         end;
       getOffset := s;
       getLength := e' - s;
       getReplacementText :=
         ParamText +:+ ", " +:+ "const QVector<int> &" +:+
         (if isOutOfLineDefinition F then "" else " = QVector<int>()") |} in
  let Replace1 :=
    <[getName PEntry := (edits_of Replace (getName PEntry) ++ [Edit])%list]>
      Replace in
  PortView2_run Opts Result Replace =
  if CreateIfdefs Opts then insertIfdef (SrcMgr Result) P Replace1
  else Done Replace1.
Proof.
  intros HF Hvalid HEntry Hroot Hlast Hn Hres Hbuf HPEntry.
  unfold PortView2_run. cbv zeta.
  rewrite HF. cbn [deref]. rewrite bind_Done, Hvalid. cbn [negb].
  rewrite HEntry, Hroot. cbn [negb].
  rewrite (getParamDecl_is_last F P Hlast Hn), bind_Done.
  rewrite HPEntry, AddReplacement_Some, bind_Done.
  rewrite (getText_resolves _ _ _ _ _ Hres buf Hbuf).
  rewrite (ReplacementOfNode_resolves _ _ _ _ _ Hres).
  rewrite NewArg_default. reflexivity.
Qed.

Lemma PortView2_appends_parameter_witness :
  let Edit :=
    {| getFilePath := "/src/table.h"; getOffset := 84; getLength := 30;
       getReplacementText :=
         "const QModelIndex &bottomRight, const QVector<int> & = QVector<int>()"
    |} in
  PortView2_run Fixture.options Inputs.table_match ∅
  = Done {[ "/src/table.h" := [Edit] ]}.
Proof.
  intros Edit.
  rewrite (PortView2_appends_parameter Fixture.options Inputs.table_match ∅
             Inputs.table_decl {| getName := "/src/table.h" |}
             Inputs.table_last_param 1 84 114
             (default "" (Buffer Inputs.table_manager 1))
             {| getName := "/src/table.h" |}).
  - vm_compute. reflexivity.
  - reflexivity.
  - reflexivity.
  - reflexivity.
  - reflexivity.
  - reflexivity.
  - reflexivity.
  - exists 103. vm_compute. repeat split; congruence.
  - reflexivity.
  - reflexivity.
Defined.

(** ** The method rename rule *)

(** The loop over the overridden methods is an existential test. *)
Lemma overridden_loop_spec (Pattern : string) (Os : list CXXMethodDecl) :
  overridden_loop Pattern Os = true <->
  exists Ov before after,
    In Ov Os /\
    "::" +:+ getQualifiedNameAsString Ov = before +:+ Pattern +:+ after.
Proof.
  induction Os as [| Ov Os IH]; simpl.
  - split; [discriminate | intros (? & ? & ? & [] & _)].
  - destruct (notnull (find ("::" +:+ getQualifiedNameAsString Ov) Pattern))
      eqn:Hfind.
    + split; [intros _ | reflexivity].
      apply find_occurs in Hfind as (b & a & Hs). eauto 6.
    + rewrite IH. split.
      * intros (O' & b & a & HIn & Hs). eauto 7.
      * intros (O' & b & a & [<- | HIn] & Hs); [| eauto 6].
        assert (notnull (find ("::" +:+ getQualifiedNameAsString Ov) Pattern)
                = true) by (apply find_occurs; eauto).
        congruence.
Qed.

(** A qualified name that contains [Class::Old] passes the test of the code,
    which looks for [Class] alone. *)
Lemma overrides_qualified_name_passes (Opts : Options) (M : CXXMethodDecl) :
  overrides_qualified_name Opts M = true ->
  overridden_loop (RenameMethod_Class Opts) (overridden_methods M) = true.
Proof.
  unfold overrides_qualified_name. rewrite existsb_exists, overridden_loop_spec.
  intros (Ov & HIn & Hfind). apply find_occurs in Hfind as (b & a & Hs).
  exists Ov, ("::" +:+ b), ("::" +:+ Rename_Old Opts +:+ a).
  split; [exact HIn |]. rewrite Hs, !append_assoc. reflexivity.
Qed.

Section RenamedMethods.
Variable Opts : Options.
Variable Result : MatchResult.
Variable Replace : ReplacementsMap.

(** What the callback does with a match that binds the callee as "expr"
    only, once the text of the call is extracted and holds the old name. *)
Lemma PortRenamedMethods_run_expr (Call : CallExpr) (E : MemberExpr)
    (M : CXXMethodDecl) (Entry : FileEntry) (pos : nat) :
  getNodeAs_CallExpr Result "call" = Some Call ->
  getNodeAs_MemberExpr Result "expr" = Some E ->
  getNodeAs_MemberExpr Result "exact" = None ->
  getNodeAs_Expr Result "func" = None ->
  getMemberDecl E = MethodDecl M ->
  getText (SrcMgr Result) Call <> "" ->
  find (getText (SrcMgr Result) Call) (Rename_Old Opts) = Some pos ->
  getFileEntryForID (SrcMgr Result) (getFileID (getLocStart Call)) = Some Entry ->
  let ArgText := getText (SrcMgr Result) Call in
  let Renamed :=
    str_take pos ArgText +:+ Rename_New Opts
      +:+ str_drop (pos + String.length (Rename_Old Opts)) ArgText in
  PortRenamedMethods_run Opts Result Replace =
  if overridden_loop (RenameMethod_Class Opts) (overridden_methods M)
  then Done (<[getName Entry :=
                 (edits_of Replace (getName Entry)
                    ++ [ReplacementOfNode (SrcMgr Result) Call Renamed])%list]>
               Replace)
  else Done Replace.
Proof.
  intros HCall HE HExact HFunc HM HText Hfind HEntry. cbv zeta.
  apply empty_false in HText.
  unfold PortRenamedMethods_run. cbv zeta.
  rewrite HCall, HE, HExact, HFunc. cbn [notnull negb andb deref].
  run_binds. rewrite HM. cbn [dyn_cast_CXXMethodDecl deref].
  unfold mret, Outcome_ret. run_binds. rewrite !orb_false_r.
  destruct (overridden_loop _ _); cbn [negb]; [| reflexivity].
  rewrite HText, Hfind. cbn [replace]. run_binds.
  rewrite HEntry, AddReplacement_Some. unfold size. now rewrite Nat2Z.id.
Qed.



End RenamedMethods.

(** What the second alternative of [portMethod]'s matcher binds. *)
Lemma portMethod_bindings_expr (Result : MatchResult) (E : MemberExpr)
    (Call : CallExpr) :
  portMethod_bindings false true (EMember E) Call = Some (Nodes Result) ->
  getNodeAs_CallExpr Result "call" = Some Call /\
  getNodeAs_MemberExpr Result "expr" = Some E /\
  getNodeAs_MemberExpr Result "exact" = None /\
  getNodeAs_Expr Result "func" = None.
Proof.
  unfold portMethod_bindings. cbn [andb]. intros [= Hnodes].
  unfold getNodeAs_CallExpr, getNodeAs_MemberExpr, getNodeAs_Expr.
  rewrite <- Hnodes. repeat split; reflexivity.
Qed.

(** C3, as stated, fails: [D::m] overrides only [Foobar::m], whose qualified
    name does not contain [Foo::m], and the call is renamed all the same. *)
Lemma rename_not_decided_by_qualified_name :
  overrides_qualified_name Inputs.rename_m Inputs.overrides_Foobar = false /\
  PortRenamedMethods_run Inputs.rename_m
    (Inputs.use_match Inputs.overrides_Foobar) ∅ =
  Done {[ "/src/use.cpp" :=
            [ {| getFilePath := "/src/use.cpp"; getOffset := 0;
                 getLength := 5; getReplacementText := "d.n()" |} ] ]}.
Proof. split; vm_compute; reflexivity. Qed.

(** C3 (amended): for a matched call whose callee does not itself match
    [<ConfiguredClass>::<OldName>] (the matcher binds it as "expr"), whose
    text is extracted and holds [OldName] and which starts in a file: if the
    method of the callee directly overrides a method whose qualified name,
    with [::] in front, contains [<ConfiguredClass>] - as every qualified
    name that contains [<ConfiguredClass>::<OldName>] does - the callback
    replaces the whole call by its text with the first [OldName] replaced by
    [NewName]; if it overrides no such method, no edit is made.  The test
    walks the overridden methods and looks for the class name alone. *)
Theorem PortRenamedMethods_renames_override (Opts : Options)
    (Result : MatchResult) (Replace : ReplacementsMap) (Call : CallExpr)
    (E : MemberExpr) (M : CXXMethodDecl) (Entry : FileEntry) (pos : nat) :
  portMethod_bindings false true (EMember E) Call = Some (Nodes Result) ->
  getMemberDecl E = MethodDecl M ->
  getText (SrcMgr Result) Call <> "" ->
  find (getText (SrcMgr Result) Call) (Rename_Old Opts) = Some pos ->
  getFileEntryForID (SrcMgr Result) (getFileID (getLocStart Call)) = Some Entry ->
  let ArgText := getText (SrcMgr Result) Call in
  let Renamed :=
    str_take pos ArgText +:+ Rename_New Opts
      +:+ str_drop (pos + String.length (Rename_Old Opts)) ArgText in
  let overrides_class :=
    exists Ov before after,
      In Ov (overridden_methods M) /\
      "::" +:+ getQualifiedNameAsString Ov
      = before +:+ RenameMethod_Class Opts +:+ after in
  (overrides_qualified_name Opts M = true \/ overrides_class ->
   PortRenamedMethods_run Opts Result Replace =
   Done (<[getName Entry :=
             (edits_of Replace (getName Entry)
                ++ [ReplacementOfNode (SrcMgr Result) Call Renamed])%list]>
           Replace)) /\
  (~ overrides_class ->
   PortRenamedMethods_run Opts Result Replace = Done Replace).
Proof.
  intros Hbind HM HText Hfind HEntry.
  destruct (portMethod_bindings_expr Result E Call Hbind)
    as (HCall & HE & HExact & HFunc).
  cbv zeta.
  rewrite (PortRenamedMethods_run_expr Opts Result Replace Call E M Entry pos)
    by assumption.
  split.
  - intros Hover.
    assert (Hloop : overridden_loop (RenameMethod_Class Opts)
                      (overridden_methods M) = true).
    { destruct Hover as [Hq | Hex].
      - now apply overrides_qualified_name_passes.
      - now apply overridden_loop_spec. }
    now rewrite Hloop.
  - intros Hnone.
    destruct (overridden_loop _ _) eqn:Hloop; [| reflexivity].
    exfalso. apply Hnone. now apply overridden_loop_spec.
Qed.

Lemma PortRenamedMethods_renames_override_witness :
  PortRenamedMethods_run Inputs.rename_m
    (Inputs.use_match Inputs.overrides_Foo) ∅ =
  Done {[ "/src/use.cpp" :=
            [ {| getFilePath := "/src/use.cpp"; getOffset := 0;
                 getLength := 5; getReplacementText := "d.n()" |} ] ]}.
Proof.
  refine (proj1 (PortRenamedMethods_renames_override Inputs.rename_m
                   (Inputs.use_match Inputs.overrides_Foo) ∅ Inputs.use_call
                   (Inputs.use_callee Inputs.overrides_Foo)
                   Inputs.overrides_Foo {| getName := "/src/use.cpp" |} 2
                   eq_refl eq_refl _ eq_refl eq_refl)
                (or_introl eq_refl)).
  vm_compute. discriminate.
Defined.






(** ** The argument removal rule *)

(** The span [RemoveArgument::run] removes.  [ke] is where the last token of
    the first argument starts, [ks] the offset of the start of the first
    argument, [a] and [b] the ends of the last tokens of the first argument
    and of the sentinel.  The span has the length of the text from [a] to
    [b], but it starts at [a + (ke - ks)]: the "start of the file" is
    computed from the end location of the first argument and the offset of
    its start location, and is the start of the file only when the two are
    the same, that is when the first argument is one token.  The shifted
    span is required to end inside the buffer of the file: a location
    shifted past the end of a file belongs to the entry that follows it. *)
Lemma RemoveArgument_span (Opts : Options) (Result : MatchResult)
    (Replace : ReplacementsMap) (Key Lang : Expr) (F : FileID)
    (ke le : Z) (Entry : FileEntry) (buf : string) :
  let SM := SrcMgr Result in
  let ks := getFileOffset (getLocStart Key) in
  let a := ke + TokenLength SM F ke in
  let b := le + TokenLength SM F le in
  getNodeAs_Expr Result "prevArg" = Some Key ->
  getNodeAs_Expr Result "arg" = Some Lang ->
  getSpellingLoc SM (getLocEnd Key) = FileLoc F ke ->
  getSpellingLoc SM (getLocEnd Lang) = FileLoc F le ->
  0 <= TokenLength SM F ke -> 0 <= TokenLength SM F le ->
  0 <= ks <= ke -> a <= b -> b + (ke - ks) < 2 ^ 31 ->
  Buffer SM F = Some buf -> b + (ke - ks) <= size buf ->
  getFileEntryForID SM F = Some Entry ->
  CreateIfdefs Opts = false ->
  RemoveArgument_run Opts Result Replace =
  Done (<[getName Entry :=
            (edits_of Replace (getName Entry)
               ++ [ {| getFilePath := getName Entry;
                       getOffset := a + (ke - ks);
                       getLength := b - a;
                       getReplacementText := "" |} ])%list]> Replace).
Proof.
  intros SM ks a b HKey HLang HKe HLe Hlk Hll Hks Hab Hb _ _ HEntry Hmode.
  unfold RemoveArgument_run. cbv zeta. rewrite HKey, HLang. cbn [deref].
  run_binds. fold SM. rewrite HKe, HLe. cbn [isValid negb orb].
  assert (HA : getDecomposedLoc (getLocForEndOfToken SM (FileLoc F ke)) = (F, a)).
  { unfold getLocForEndOfToken, MeasureTokenLength. subst a.
    destruct (Z.ltb_spec 0 (TokenLength SM F ke)); simpl; f_equal; lia. }
  assert (HB : getDecomposedLoc (getLocForEndOfToken SM (FileLoc F le)) = (F, b)).
  { unfold getLocForEndOfToken, MeasureTokenLength. subst b.
    destruct (Z.ltb_spec 0 (TokenLength SM F le)); simpl; f_equal; lia. }
  rewrite HA, HB. cbn [fst snd]. rewrite Z.eqb_refl. cbn [negb].
  destruct (Z.ltb_spec b a); [lia |].
  rewrite HEntry, AddReplacement_Some, Hmode. run_binds.
  do 3 f_equal.
  unfold ReplacementOfRange, setFromSourceRange, setFromSourceLocation,
    getRangeSize.
  cbn [getBegin getEnd isTokenRange getLocWithOffset getSpellingLoc
       getDecomposedLoc fst snd].
  rewrite Z.eqb_refl. cbn [negb]. fold SM. rewrite HEntry. fold ks.
  rewrite i32_neg by lia.
  rewrite (i32_small a), (i32_small b) by (subst a b; lia).
  replace (ke + - ks + b - (ke + - ks + a)) with (b - a) by ring.
  rewrite i32_small by lia. rewrite u32_small by lia.
  replace (ke + - ks + a) with (a + (ke - ks)) by ring. reflexivity.
Qed.

(** C6: in [img.text(k.data(), 0)] the span to remove is [, 0], at offsets
    29 to 32.  The callback removes the 3 bytes from offset 36 on instead,
    which lie in the next line, and the sentinel stays. *)
Theorem RemoveArgument_misplaces_span :
  let Edit :=
    {| getFilePath := "/src/image.cpp"; getOffset := 36; getLength := 3;
       getReplacementText := "" |} in
  text_between Inputs.image_code 29 32 = ", 0" /\
  RemoveArgument_run Fixture.options Inputs.image_match ∅
  = Done {[ "/src/image.cpp" := [Edit] ]} /\
  apply Edit Inputs.image_code
  = "QString t = img.text(k.data(), 0);" +:+ nl +:+ "rrn t;" +:+ nl.
Proof. repeat split; vm_compute; reflexivity. Qed.

(** With a first argument of one token the span is the one the design
    document describes: [img.text(key, 0)] becomes [img.text(key)]. *)
Lemma RemoveArgument_one_token_key :
  let Edit :=
    {| getFilePath := "/src/image.cpp"; getOffset := 24; getLength := 3;
       getReplacementText := "" |} in
  RemoveArgument_run Fixture.options Inputs.image_key_match ∅
  = Done {[ "/src/image.cpp" := [Edit] ]} /\
  apply Edit Inputs.image_key_code = "QString t = img.text(key);" +:+ nl.
Proof.
  intros Edit. split; [| reflexivity].
  rewrite (RemoveArgument_span Fixture.options Inputs.image_key_match ∅
             (EOther (Fixture.range 1 21 21)) (EOther (Fixture.range 1 26 26))
             1 21 26 {| getName := "/src/image.cpp" |} Inputs.image_key_code);
    try reflexivity; vm_compute; repeat split; congruence.
Qed.

(** ** The dual-mode wrapper *)

Lemma size_append (a b : string) : size (a +:+ b) = size a + size b.
Proof. unfold size. rewrite length_append. lia. Qed.

Lemma size_nonneg (s : string) : 0 <= size s.
Proof. unfold size. lia. Qed.

Lemma to_nat_size (s : string) : Z.to_nat (size s) = String.length s.
Proof. unfold size. apply Nat2Z.id. Qed.

(** The column count runs over the text after the last line break. *)
Lemma line_tail_free (s : string) (acc : nat) :
  free_of is_line_break s = true ->
  line_tail s acc = (acc + String.length s)%nat.
Proof.
  revert acc. induction s as [| c s IH]; intros acc; simpl.
  - intros _. lia.
  - unfold is_line_break at 1. intros Hfree.
    apply andb_true_iff in Hfree as [Hc Hs]. apply negb_true_iff in Hc.
    rewrite Hc, IH by exact Hs. lia.
Qed.

Lemma line_tail_append (a b : string) (acc : nat) :
  line_tail (a +:+ b) acc = line_tail b (line_tail a acc).
Proof.
  revert acc. induction a as [| c a IH]; intros acc; [reflexivity |].
  rewrite append_cons. simpl. destruct (_ || _)%bool; apply IH.
Qed.

(** The scan for the end of the line stops at the first line feed. *)
Lemma scan_eol_found (tail post : string) (eol : nat) :
  free_of is_line_feed tail = true ->
  scan_eol (tail +:+ nl +:+ post) eol = Done (eol + String.length tail)%nat.
Proof.
  revert eol. induction tail as [| c tail IH]; intros eol Hfree.
  - simpl. f_equal. lia.
  - rewrite append_cons. simpl in *. unfold is_line_feed in Hfree at 1.
    apply andb_true_iff in Hfree as [Hc Hs]. apply negb_true_iff in Hc.
    rewrite Hc, IH by exact Hs. f_equal. lia.
Qed.

(** A pure insertion. *)
Lemma apply_insertion (R : Replacement) (Before After : string) :
  getOffset R = size Before ->
  getLength R = 0 ->
  apply R (Before +:+ After) = Before +:+ getReplacementText R +:+ After.
Proof.
  intros Hoff Hlen.
  exact (apply_frame R Before "" After Hoff Hlen).
Qed.

Section Wrapper.
Context {T : Type} `{Located T}.
Variable SM : SourceManager.
Variable Node : T.
Variable Replace : ReplacementsMap.
Variables (F : FileID) (s e : Z) (Entry : FileEntry).
Variables (buf pre head body tail post : string).

Hypothesis Hstart : getSpellingLoc SM (getLocStart Node) = FileLoc F s.
Hypothesis Hend : getSpellingLoc SM (getLocEnd Node) = FileLoc F e.
Hypothesis Hbuf : Buffer SM F = Some buf.
Hypothesis HEntry : getFileEntryForID SM F = Some Entry.
Hypothesis Hsplit : buf = pre +:+ head +:+ body +:+ tail +:+ nl +:+ post.
Hypothesis Hpre : line_tail pre 0 = 0%nat.
Hypothesis Hhead : free_of is_line_break head = true.
Hypothesis Htail : free_of is_line_feed tail = true.
Hypothesis Hs : s = size (pre +:+ head).
Hypothesis He :
  snd (getDecomposedLoc (getLocForEndOfToken SM (FileLoc F e)))
  = size (pre +:+ head +:+ body).
Hypothesis Hsize : size buf < 2 ^ 31.

Let line := head +:+ body +:+ tail.

Lemma wrapper_column :
  getSpellingColumnNumber SM (FileLoc F s) = (size head + 1, false).
Proof.
  unfold getSpellingColumnNumber. cbn [getSpellingLoc getDecomposedLoc].
  rewrite Hbuf.
  assert (Hle : s <= size buf).
  { rewrite Hs, Hsplit, <- append_assoc, !size_append.
    pose proof (size_nonneg (body +:+ tail +:+ nl +:+ post)).
    rewrite !size_append in *. lia. }
  destruct (Z.ltb_spec (size buf) s); [lia |].
  rewrite Hs, to_nat_size, Hsplit, <- append_assoc, str_take_append.
  rewrite line_tail_append, Hpre, line_tail_free by exact Hhead.
  reflexivity.
Qed.

Lemma wrapper_line_start :
  getLocWithOffset (FileLoc F s) (i32 (u32 (- (size head + 1)) + 1))
  = FileLoc F (size pre).
Proof.
  pose proof (size_nonneg head). pose proof (size_nonneg pre).
  assert (size head <= size buf).
  { rewrite Hsplit, !size_append.
    pose proof (size_nonneg body). pose proof (size_nonneg tail).
    pose proof (size_nonneg post). pose proof (size_nonneg nl). lia. }
  rewrite i32_line_offset by lia. cbn [getLocWithOffset].
  rewrite Hs, size_append. f_equal. lia.
Qed.

Lemma wrapper_token_end :
  getDecomposedLoc (getLocForEndOfToken SM (FileLoc F e))
  = (F, size (pre +:+ head +:+ body)).
Proof.
  rewrite <- He. unfold getLocForEndOfToken.
  destruct (0 <? MeasureTokenLength SM (FileLoc F e)); reflexivity.
Qed.

(** The wrapper adds its two insertions, and nothing else. *)
Lemma insertIfdef_inserts :
  insertIfdef SM Node Replace =
  Done (<[getName Entry :=
            (edits_of Replace (getName Entry)
               ++ [wrapper_open (getName Entry) pre line;
                   wrapper_close (getName Entry) pre line])%list]> Replace).
Proof.
  pose proof (size_nonneg pre). pose proof (size_nonneg head).
  pose proof (size_nonneg body). pose proof (size_nonneg tail).
  pose proof (size_nonneg post).
  assert (Hbufsize : size buf = size pre + size head + size body + size tail
                                + 1 + size post).
  { rewrite Hsplit, !size_append. change (size nl) with 1. lia. }
  unfold insertIfdef. rewrite Hstart, Hend. cbn [isValid negb orb].
  rewrite wrapper_column, wrapper_line_start, wrapper_token_end.
  unfold getCharacterData. cbn [getSpellingLoc getDecomposedLoc fst snd].
  rewrite Hbuf, Z.eqb_refl. cbn [negb].
  rewrite !size_append.
  destruct (Z.ltb_spec (size pre + (size head + size body)) (size pre));
    [lia |].
  replace (size pre + (size head + size body) - size pre)
    with (size (head +:+ body)) by (rewrite size_append; lia).
  rewrite u32_small by (rewrite size_append; lia).
  unfold find_eol. rewrite !to_nat_size.
  rewrite Hsplit, str_drop_append.
  replace (head +:+ body +:+ tail +:+ nl +:+ post)
    with ((head +:+ body) +:+ tail +:+ nl +:+ post)
    by now rewrite !append_assoc.
  rewrite str_drop_append, scan_eol_found by exact Htail.
  run_binds. unfold mret, Outcome_ret. run_binds.
  rewrite HEntry, AddReplacement_Some. run_binds.
  rewrite AddReplacement_Some, edits_of_insert, insert_insert_eq.
  rewrite <- length_append.
  assert (Hline : (head +:+ body) +:+ tail = line)
    by (unfold line; now rewrite append_assoc).
  rewrite Hline. fold (size line).
  unfold std_string. rewrite to_nat_size.
  replace ((head +:+ body) +:+ tail +:+ nl +:+ post)
    with (line +:+ nl +:+ post)
    by (unfold line; now rewrite !append_assoc).
  rewrite str_take_append.
  assert (size line < 2 ^ 31).
  { unfold line. rewrite !size_append. lia. }
  rewrite i32_small by (pose proof (size_nonneg line); lia).
  rewrite <- app_assoc. cbn [app].
  unfold ReplacementAt, setFromSourceLocation, wrapper_open, wrapper_close.
  cbn [getLocWithOffset getDecomposedLoc fst snd]. rewrite HEntry.
  rewrite size_append. reflexivity.
Qed.

(** Applied together with a replacement inside the line, the insertions
    give the guarded block: the line as it was under [#if], the rewritten
    line under [#else], and [#endif]. *)
Lemma wrapper_block (Name : string) (R : Replacement)
    (before old after : string) :
  line = before +:+ old +:+ after ->
  getOffset R = size (pre +:+ before) ->
  getLength R = size old ->
  apply (wrapper_open Name pre line)
    (apply R (apply (wrapper_close Name pre line) buf))
  = pre +:+ OldVersionGuard +:+ nl +:+ line +:+ nl +:+ "#else" +:+ nl
      +:+ (before +:+ getReplacementText R +:+ after)
      +:+ nl +:+ "#endif" +:+ nl +:+ post.
Proof.
  intros Hline Hoff Hlen.
  assert (Hclosed : apply (wrapper_close Name pre line) buf
                    = (pre +:+ before) +:+ old
                        +:+ (after +:+ nl +:+ "#endif" +:+ nl +:+ post)).
  { replace buf with ((pre +:+ line) +:+ nl +:+ post)
      by (rewrite Hsplit; unfold line; now rewrite !append_assoc).
    rewrite apply_insertion by reflexivity.
    cbn [getReplacementText wrapper_close].
    rewrite Hline, !append_assoc. reflexivity. }
  rewrite Hclosed, apply_frame by assumption.
  rewrite (append_assoc pre before).
  rewrite apply_insertion by reflexivity.
  cbn [getReplacementText wrapper_open].
  now rewrite !append_assoc.
Qed.

End Wrapper.

(** The wrapper leaves without an edit when one of its own tests fails. *)
Lemma insertIfdef_skips {T : Type} `{Located T} (SM : SourceManager)
    (Node : T) (Replace : ReplacementsMap) :
  let StartSpelling := getSpellingLoc SM (getLocStart Node) in
  let EndSpelling := getSpellingLoc SM (getLocEnd Node) in
  isValid StartSpelling = false \/ isValid EndSpelling = false \/
  snd (getSpellingColumnNumber SM StartSpelling) = true \/
  getFileID StartSpelling
  <> getFileID (getLocForEndOfToken SM EndSpelling) ->
  insertIfdef SM Node Replace = Done Replace.
Proof.
  intros StartSpelling EndSpelling Hfail. unfold insertIfdef.
  fold StartSpelling EndSpelling.
  destruct (isValid StartSpelling) eqn:HS; [| reflexivity].
  destruct (isValid EndSpelling) eqn:HE; [| reflexivity].
  cbn [negb orb].
  destruct (getSpellingColumnNumber SM StartSpelling) as [Column [|]];
    [reflexivity |].
  destruct Hfail as [Hf | [Hf | [Hf | Hf]]]; try discriminate.
  destruct (getCharacterData _ _) as [Text Invalid].
  unfold getFileID in Hf.
  destruct StartSpelling as [| SF so | SF so]; try discriminate;
    cbn [getLocWithOffset getDecomposedLoc fst] in *;
    apply Z.eqb_neq in Hf; now rewrite Hf.
Qed.

(** The rules that apply the wrapper hand it the node they replaced, after
    adding their own edit. *)
Section DualMode.
Variable Opts : Options.
Variable Result : MatchResult.
Variable Replace : ReplacementsMap.
Variable Entry : FileEntry.

Lemma PortAtomic_run_accepted (Call : CallExpr) :
  getNodeAs_CallExpr Result "call" = Some Call ->
  getText (SrcMgr Result) Call <> "" ->
  getFileEntryForID (SrcMgr Result) (getFileID (getLocStart Call)) = Some Entry ->
  let Own :=
    ReplacementOfNode (SrcMgr Result) Call
      (getText (SrcMgr Result) Call +:+ ".load()") in
  let Replace1 :=
    <[getName Entry := (edits_of Replace (getName Entry) ++ [Own])%list]>
      Replace in
  PortAtomic_run Opts Result Replace =
  if CreateIfdefs Opts then insertIfdef (SrcMgr Result) Call Replace1
  else Done Replace1.
Proof.
  intros HCall HText HEntry. apply empty_false in HText. cbv zeta.
  unfold PortAtomic_run. rewrite HCall. cbn [deref]. run_binds.
  rewrite HText, HEntry, AddReplacement_Some. now run_binds.
Qed.

Lemma PortEnum_run_accepted (Call : DeclRefExpr) (pos : nat) :
  getNodeAs_DeclRefExpr Result "call" = Some Call ->
  getText (SrcMgr Result) Call <> "" ->
  find (getText (SrcMgr Result) Call) (Rename_Old Opts) = Some pos ->
  getFileEntryForID (SrcMgr Result) (getFileID (getLocStart Call)) = Some Entry ->
  let Own := ReplacementOfNode (SrcMgr Result) Call (Rename_New Opts) in
  let Replace1 :=
    <[getName Entry := (edits_of Replace (getName Entry) ++ [Own])%list]>
      Replace in
  PortEnum_run Opts Result Replace =
  if CreateIfdefs Opts then insertIfdef (SrcMgr Result) Call Replace1
  else Done Replace1.
Proof.
  intros HCall HText Hfind HEntry. apply empty_false in HText. cbv zeta.
  unfold PortEnum_run. rewrite HCall. cbn [deref]. run_binds.
  rewrite HText, Hfind. cbn [replace]. run_binds.
  rewrite HEntry, AddReplacement_Some. now run_binds.
Qed.

Lemma PortMetaMethods_run_accepted (Call : Expr) (pos : nat) :
  getNodeAs_Expr Result "call" = Some Call ->
  getText (SrcMgr Result) Call <> "" ->
  find (getText (SrcMgr Result) Call) "signature" = Some pos ->
  getFileEntryForID (SrcMgr Result) (getFileID (getLocStart Call)) = Some Entry ->
  let ArgText := getText (SrcMgr Result) Call in
  let Own :=
    ReplacementOfNode (SrcMgr Result) Call
      (str_take pos ArgText +:+ "methodSignature"
         +:+ str_drop (pos + 9) ArgText) in
  let Replace1 :=
    <[getName Entry := (edits_of Replace (getName Entry) ++ [Own])%list]>
      Replace in
  PortMetaMethods_run Opts Result Replace =
  if CreateIfdefs Opts then insertIfdef (SrcMgr Result) Call Replace1
  else Done Replace1.
Proof.
  intros HCall HText Hfind HEntry. apply empty_false in HText. cbv zeta.
  unfold PortMetaMethods_run. rewrite HCall. cbn [deref]. run_binds.
  rewrite HText. cbv zeta. rewrite Hfind. cbn [replace]. run_binds.
  rewrite HEntry, AddReplacement_Some. now run_binds.
Qed.

End DualMode.

(** C2, as stated, fails: in dual mode the call of [Inputs.macro_end_match]
    is accepted and rewritten, but it starts and ends in different files,
    the wrapper leaves at its own range test, and no insertion is made. *)
Lemma dual_mode_without_wrapper :
  CreateIfdefs Inputs.dual_escape = true /\
  PortQtEscape4To5_run Inputs.dual_escape Inputs.macro_end_match ∅ =
  Done {[ "/src/main.cpp" :=
            [ {| getFilePath := "/src/main.cpp"; getOffset := 12;
                 getLength := 4294967295;
                 getReplacementText := "str.toHtmlEscaped()" |} ] ]}.
Proof. split; vm_compute; reflexivity. Qed.

(** C2 (amended): when the node given to the wrapper passes the wrapper's own
    tests - its first and last token are spelled in one file, whose buffer
    is available, and the last token does not end before the node starts -
    and a line feed follows the node in the buffer, the wrapper adds exactly
    two insertions to the edits of that file: at the first column of the
    line on which the node starts, the version guard, the text from there to
    the end of the line on which the node ends, and [#else]; and at the end
    of that line, [#endif].  Applied together with a replacement that lies
    inside that text, they give a balanced [#if]/[#else]/[#endif] block with
    one copy of the text as it was and one copy of the rewritten text. *)
Theorem insertIfdef_wraps_line {T : Type} `{Located T} (SM : SourceManager)
    (Node : T) (Replace : ReplacementsMap) (F : FileID) (s e : Z)
    (Entry : FileEntry) (buf pre head body tail post : string) :
  getSpellingLoc SM (getLocStart Node) = FileLoc F s ->
  getSpellingLoc SM (getLocEnd Node) = FileLoc F e ->
  Buffer SM F = Some buf ->
  getFileEntryForID SM F = Some Entry ->
  buf = pre +:+ head +:+ body +:+ tail +:+ nl +:+ post ->
  line_tail pre 0 = 0%nat ->
  free_of is_line_break head = true ->
  free_of is_line_feed tail = true ->
  s = size (pre +:+ head) ->
  snd (getDecomposedLoc (getLocForEndOfToken SM (FileLoc F e)))
  = size (pre +:+ head +:+ body) ->
  size buf < 2 ^ 31 ->
  let line := head +:+ body +:+ tail in
  let Open := wrapper_open (getName Entry) pre line in
  let Close := wrapper_close (getName Entry) pre line in
  insertIfdef SM Node Replace =
  Done (<[getName Entry :=
            (edits_of Replace (getName Entry) ++ [Open; Close])%list]>
          Replace) /\
  forall (R : Replacement) (before old after : string),
    line = before +:+ old +:+ after ->
    getOffset R = size (pre +:+ before) ->
    getLength R = size old ->
    apply Open (apply R (apply Close buf))
    = pre +:+ OldVersionGuard +:+ nl +:+ line +:+ nl +:+ "#else" +:+ nl
        +:+ (before +:+ getReplacementText R +:+ after)
        +:+ nl +:+ "#endif" +:+ nl +:+ post.
Proof.
  intros Hstart Hend Hbuf HEntry Hsplit Hpre Hhead Htail Hs He Hsize.
  cbv zeta. split.
  - now apply (insertIfdef_inserts SM Node Replace F s e Entry
                 buf pre head body tail post).
  - intros R before old after. now apply wrapper_block.
Qed.

Lemma insertIfdef_wraps_line_witness :
  insertIfdef Inputs.escape_plain_manager Inputs.escape_plain_call ∅ =
  Done {[ "/src/main.cpp" :=
            [ {| getFilePath := "/src/main.cpp"; getOffset := 0;
                 getLength := 0;
                 getReplacementText :=
                   OldVersionGuard +:+ nl +:+ "QString s = Qt::escape(str);"
                     +:+ nl +:+ "#else" +:+ nl |};
              {| getFilePath := "/src/main.cpp"; getOffset := 28;
                 getLength := 0;
                 getReplacementText := nl +:+ "#endif" |} ] ]}.
Proof.
  refine (proj1 (insertIfdef_wraps_line Inputs.escape_plain_manager
                   Inputs.escape_plain_call ∅ 1 12 26
                   {| getName := "/src/main.cpp" |}
                   ("QString s = Qt::escape(str);" +:+ nl)
                   "" "QString s = " "Qt::escape(str)" ";" ""
                   _ _ _ _ _ _ _ _ _ _ _));
    reflexivity.
Defined.

(** The [Qt::escape] rule in dual mode, from the match to the text: the edit
    of the rule and the two insertions, and the file after them. *)
Example PortQtEscape4To5_dual_mode :
  let Code := "QString s = Qt::escape(str);" +:+ nl in
  let Own :=
    {| getFilePath := "/src/main.cpp"; getOffset := 12; getLength := 15;
       getReplacementText := "str.toHtmlEscaped()" |} in
  let Open := wrapper_open "/src/main.cpp" "" "QString s = Qt::escape(str);" in
  let Close := wrapper_close "/src/main.cpp" "" "QString s = Qt::escape(str);" in
  PortQtEscape4To5_run Inputs.dual_escape Inputs.escape_plain_match ∅
  = Done {[ "/src/main.cpp" := [Own; Open; Close] ]} /\
  apply Open (apply Own (apply Close Code))
  = "#if QT_VERSION < QT_VERSION_CHECK(5, 0, 0)" +:+ nl
    +:+ "QString s = Qt::escape(str);" +:+ nl
    +:+ "#else" +:+ nl
    +:+ "QString s = str.toHtmlEscaped();" +:+ nl
    +:+ "#endif" +:+ nl.
Proof. split; vm_compute; reflexivity. Qed.

(** * Further properties of the code *)

(** ** Text extraction *)

Lemma length_str_take (n : nat) (s : string) :
  String.length (str_take n s) = Nat.min n (String.length s).
Proof.
  revert s. induction n as [| n IH]; intros [| c s]; simpl; try reflexivity.
  now rewrite IH.
Qed.

Lemma length_str_drop (n : nat) (s : string) :
  String.length (str_drop n s) = (String.length s - n)%nat.
Proof.
  revert s. induction n as [| n IH]; intros [| c s]; simpl; try reflexivity.
  apply IH.
Qed.

Lemma str_take_add (n m : nat) (s : string) :
  str_take (n + m) s = str_take n s +:+ str_take m (str_drop n s).
Proof.
  revert s. induction n as [| n IH]; intros s; simpl.
  - reflexivity.
  - destruct s as [| c s]; [now destruct m |].
    rewrite append_cons. f_equal. apply IH.
Qed.

(** X1: [getText] returns the empty string whenever the text cannot be
    found: a spelling location is invalid, the buffer of the start cannot be
    had, the start and the end of the last token lie in different entries,
    or the last token ends before the start. *)
Theorem getText_empty_on_failure {T : Type} `{Located T} (SM : SourceManager)
    (Node : T) :
  let StartSpelling := getSpellingLoc SM (getLocStart Node) in
  let EndSpelling := getSpellingLoc SM (getLocEnd Node) in
  let TokenEnd := getLocForEndOfToken SM EndSpelling in
  isValid StartSpelling = false \/
  isValid EndSpelling = false \/
  snd (getCharacterData SM StartSpelling) = true \/
  getFileID StartSpelling <> getFileID TokenEnd \/
  getFileOffset TokenEnd < getFileOffset StartSpelling ->
  getText SM Node = "".
Proof.
  intros StartSpelling EndSpelling TokenEnd [Hf | [Hf | [Hf | [Hf | Hf]]]].
  - apply getText_invalid_location. now left.
  - apply getText_invalid_location. now right.
  - now apply getText_invalid_buffer.
  - now apply getText_different_files.
  - now apply getText_end_before_start.
Qed.

Lemma getText_empty_on_failure_witness :
  getText Inputs.view_manager Inputs.view_last_param = "".
Proof.
  apply getText_empty_on_failure.
  right; right; right; left. vm_compute. discriminate.
Defined.

(** X2: for a node whose extent resolves inside the buffer, the extracted
    text is the bytes of the buffer from the start of the first token to the
    end of the last token - the whole last token, not only its start - and
    has that many characters. *)
Theorem getText_covers_last_token {T : Type} `{Located T} (SM : SourceManager)
    (Node : T) (F : FileID) (s e' : Z) (buf : string) :
  resolves SM Node F s e' ->
  Buffer SM F = Some buf ->
  e' <= size buf ->
  size (getText SM Node) = e' - s /\
  buf = str_take (Z.to_nat s) buf +:+ getText SM Node
          +:+ str_drop (Z.to_nat e') buf.
Proof.
  intros Hres Hbuf Hle.
  rewrite (getText_resolves SM Node F s e' Hres buf Hbuf).
  destruct Hres as (e & _ & _ & _ & _ & Hs & _).
  unfold text_between, size in *. split.
  - rewrite length_str_take, length_str_drop. lia.
  - replace (Z.to_nat e') with (Z.to_nat s + Z.to_nat (e' - s))%nat by lia.
    rewrite str_drop_add.
    rewrite (str_take_drop (Z.to_nat (e' - s)) (str_drop (Z.to_nat s) buf)).
    now rewrite str_take_drop.
Qed.

Lemma getText_covers_last_token_witness :
  size (getText Inputs.table_manager Inputs.table_last_param) = 30.
Proof.
  refine (proj1 (getText_covers_last_token Inputs.table_manager
                   Inputs.table_last_param 1 84 114
                   (default "" (Buffer Inputs.table_manager 1)) _ eq_refl _)).
  - exists 103. vm_compute. repeat split; congruence.
  - vm_compute. discriminate.
Defined.

(** ** The wrapper *)

Lemma scan_eol_none (Rest : string) (eol : nat) :
  free_of is_line_feed Rest = true -> scan_eol Rest eol = Crash BufferOverrun.
Proof.
  revert eol. induction Rest as [| c Rest IH]; intros eol Hfree.
  - reflexivity.
  - simpl in *. unfold is_line_feed in Hfree at 1.
    apply andb_true_iff in Hfree as [Hc Hs]. apply negb_true_iff in Hc.
    rewrite Hc. now apply IH.
Qed.

Lemma str_drop_take_add (n m : nat) (s : string) :
  str_drop n (str_take (n + m) s) = str_take m (str_drop n s).
Proof.
  revert s. induction n as [| n IH]; intros s; simpl.
  - rewrite ?str_drop_0. reflexivity.
  - destruct s as [| c s]; simpl; [now destruct m |]. apply IH.
Qed.

Lemma getSpellingLoc_not_macro (SM : SourceManager) (L : SourceLocation)
    (F : FileID) (o : Z) :
  getSpellingLoc SM L <> MacroLoc F o.
Proof.
  destruct L as [| LF lo | LF lo]; simpl; try discriminate.
  destruct (MacroSpelling SM LF lo). discriminate.
Qed.

(** Where the scan for the end of the line stops, a line feed stands, and
    none stands before it. *)
Lemma scan_eol_Done (Rest : string) (eol n : nat) :
  scan_eol Rest eol = Done n ->
  exists (k : nat) (Rest' : string),
    n = (eol + k)%nat /\
    free_of is_line_feed (str_take k Rest) = true /\
    str_drop k Rest = nl +:+ Rest'.
Proof.
  revert eol. induction Rest as [| c Rest IH]; intros eol; simpl.
  - discriminate.
  - destruct (Ascii.eqb c "010") eqn:Hc.
    + intros [= <-]. apply Ascii.eqb_eq in Hc as ->.
      exists 0%nat, Rest. repeat split. lia.
    + intros Hscan. apply IH in Hscan as (k & Rest' & -> & Hfree & Hdrop).
      exists (S k), Rest'. split; [lia |]. split; [| exact Hdrop].
      simpl. unfold is_line_feed at 1. now rewrite Hc.
Qed.

(** X3: the wrapper never removes or replaces text, and what it inserts is
    read off the file.  Whenever it returns, it has left the edits as they
    were or has added, to the file in which the node starts, two edits of
    length 0.  The first is placed at an offset [o] of that file and holds
    the version guard, a copy of the [n] bytes of the buffer that follow [o]
    and [#else].  The copy reaches at least to the end [e'] of the last token
    of the node, holds no line feed from there on, and the buffer has a line
    feed right after it.  The second edit is placed [n] bytes further, at
    that line feed, and holds [#endif]. *)
Theorem insertIfdef_only_inserts {T : Type} `{Located T} (SM : SourceManager)
    (Node : T) (Replace Replace' : ReplacementsMap) :
  insertIfdef SM Node Replace = Done Replace' ->
  Replace' = Replace \/
  exists (F : FileID) (s o : Z) (n : nat) (buf Rest : string)
         (Entry : FileEntry),
    let e' :=
      getFileOffset
        (getLocForEndOfToken SM (getSpellingLoc SM (getLocEnd Node))) in
    let n0 := Z.to_nat (u32 (e' - o)) in
    let ExistingText := str_take n (str_drop (Z.to_nat o) buf) in
    let Open :=
      {| getFilePath := getName Entry; getOffset := o; getLength := 0;
         getReplacementText :=
           OldVersionGuard +:+ nl +:+ ExistingText +:+ nl +:+ "#else" +:+ nl |} in
    let Close :=
      {| getFilePath := getName Entry; getOffset := o + i32 (Z.of_nat n);
         getLength := 0; getReplacementText := nl +:+ "#endif" |} in
    getSpellingLoc SM (getLocStart Node) = FileLoc F s /\
    Buffer SM F = Some buf /\
    getFileEntryForID SM F = Some Entry /\
    o <= e' /\
    (n0 <= n)%nat /\
    str_drop (Z.to_nat o) buf = ExistingText +:+ nl +:+ Rest /\
    free_of is_line_feed (str_drop n0 ExistingText) = true /\
    Replace' =
    <[getName Entry :=
        (edits_of Replace (getName Entry) ++ [Open; Close])%list]> Replace.
Proof.
  unfold insertIfdef.
  destruct (getSpellingLoc SM (getLocStart Node)) as [| F s | F s] eqn:HS.
  - cbn [isValid negb orb]. intros [= <-]. now left.
  - destruct (isValid (getSpellingLoc SM (getLocEnd Node)));
      cbn [isValid negb orb]; [| intros [= <-]; now left].
    unfold getSpellingColumnNumber. cbn [getSpellingLoc getDecomposedLoc].
    destruct (Buffer SM F) as [buf |] eqn:Hbuf; [| intros [= <-]; now left].
    destruct (size buf <? s); [intros [= <-]; now left |].
    cbn [getLocWithOffset].
    set (o := s + i32 _).
    unfold getCharacterData. cbn [getSpellingLoc getDecomposedLoc fst snd].
    rewrite Hbuf.
    destruct (negb _); [intros [= <-]; now left |].
    destruct (Z.ltb_spec
                (snd (getDecomposedLoc
                        (getLocForEndOfToken SM
                           (getSpellingLoc SM (getLocEnd Node))))) o)
      as [| Hle]; [intros [= <-]; now left |].
    intros Hrun. apply bind_inv_Done in Hrun as (eol & Heol & Hrun).
    unfold find_eol in Heol.
    apply bind_inv_Done in Heol as (n & Hscan & Hn).
    injection Hn as <-.
    apply scan_eol_Done in Hscan as (k & Rest & -> & Hfree & Hdrop).
    apply bind_inv_Done in Hrun as (Replace1 & Hopen & Hclose).
    destruct (getFileEntryForID SM F) as [Entry |] eqn:HEntry; [| discriminate].
    rewrite AddReplacement_Some in Hopen, Hclose.
    injection Hopen as <-. injection Hclose as <-.
    rewrite edits_of_insert, insert_insert_eq, <- app_assoc. cbn [app].
    right. unfold getFileOffset.
    exists F, s, o,
      (Z.to_nat
         (u32 (snd (getDecomposedLoc
                      (getLocForEndOfToken SM
                         (getSpellingLoc SM (getLocEnd Node)))) - o)) + k)%nat,
      buf, Rest, Entry.
    cbv zeta. split; [reflexivity |]. split; [exact Hbuf |].
    split; [exact HEntry |]. split; [exact Hle |].
    split; [apply Nat.le_add_r |].
    split; [| split].
    + rewrite <- Hdrop, <- str_drop_add. symmetry. apply str_take_drop.
    + rewrite str_drop_take_add. exact Hfree.
    + unfold ReplacementAt, setFromSourceLocation, std_string.
      cbn [getLocWithOffset getDecomposedLoc fst snd].
      rewrite HEntry, Nat2Z.id. reflexivity.
  - now destruct (getSpellingLoc_not_macro SM (getLocStart Node) F s).
Qed.

Lemma insertIfdef_only_inserts_witness :
  {[ "/src/main.cpp" :=
       [ wrapper_open "/src/main.cpp" "" "QString s = Qt::escape(str);";
         wrapper_close "/src/main.cpp" "" "QString s = Qt::escape(str);" ] ]}
  = (∅ : ReplacementsMap) \/
  exists (F : FileID) (s o : Z) (n : nat) (buf Rest : string)
         (Entry : FileEntry),
    let e' :=
      getFileOffset
        (getLocForEndOfToken Inputs.escape_plain_manager
           (getSpellingLoc Inputs.escape_plain_manager
              (getLocEnd Inputs.escape_plain_call))) in
    let n0 := Z.to_nat (u32 (e' - o)) in
    let ExistingText := str_take n (str_drop (Z.to_nat o) buf) in
    let Open :=
      {| getFilePath := getName Entry; getOffset := o; getLength := 0;
         getReplacementText :=
           OldVersionGuard +:+ nl +:+ ExistingText +:+ nl +:+ "#else" +:+ nl |} in
    let Close :=
      {| getFilePath := getName Entry; getOffset := o + i32 (Z.of_nat n);
         getLength := 0; getReplacementText := nl +:+ "#endif" |} in
    getSpellingLoc Inputs.escape_plain_manager
      (getLocStart Inputs.escape_plain_call) = FileLoc F s /\
    Buffer Inputs.escape_plain_manager F = Some buf /\
    getFileEntryForID Inputs.escape_plain_manager F = Some Entry /\
    o <= e' /\
    (n0 <= n)%nat /\
    str_drop (Z.to_nat o) buf = ExistingText +:+ nl +:+ Rest /\
    free_of is_line_feed (str_drop n0 ExistingText) = true /\
    ({[ "/src/main.cpp" :=
          [ wrapper_open "/src/main.cpp" "" "QString s = Qt::escape(str);";
            wrapper_close "/src/main.cpp" "" "QString s = Qt::escape(str);" ] ]}
     : ReplacementsMap) =
    <[getName Entry := (edits_of ∅ (getName Entry) ++ [Open; Close])%list]> ∅.
Proof.
  apply (insertIfdef_only_inserts Inputs.escape_plain_manager
           Inputs.escape_plain_call ∅).
  vm_compute. reflexivity.
Defined.

(** X4: the wrapper makes no edit when one of its own tests fails: a
    spelling location of the node is invalid, the column of the start cannot
    be told, the start of the line and the end of the last token lie in
    different entries, or the last token ends before the start of the
    line. *)
Theorem insertIfdef_leaves_on_failed_test {T : Type} `{Located T}
    (SM : SourceManager) (Node : T) (Replace : ReplacementsMap) :
  let StartSpelling := getSpellingLoc SM (getLocStart Node) in
  let EndSpelling := getSpellingLoc SM (getLocEnd Node) in
  let TokenEnd := getLocForEndOfToken SM EndSpelling in
  let Column := fst (getSpellingColumnNumber SM StartSpelling) in
  let StartOfLine :=
    getLocWithOffset StartSpelling (i32 (u32 (- Column) + 1)) in
  isValid StartSpelling = false \/
  isValid EndSpelling = false \/
  snd (getSpellingColumnNumber SM StartSpelling) = true \/
  getFileID StartSpelling <> getFileID TokenEnd \/
  getFileOffset TokenEnd < getFileOffset StartOfLine ->
  insertIfdef SM Node Replace = Done Replace.
Proof.
  intros StartSpelling EndSpelling TokenEnd Column StartOfLine Hfail.
  assert (Hfour : isValid StartSpelling = false \/
                  isValid EndSpelling = false \/
                  snd (getSpellingColumnNumber SM StartSpelling) = true \/
                  getFileID StartSpelling <> getFileID TokenEnd ->
                  insertIfdef SM Node Replace = Done Replace)
    by apply insertIfdef_skips.
  destruct Hfail as [Hf | [Hf | [Hf | [Hf | Hf]]]]; [tauto .. |].
  unfold insertIfdef.
  fold StartSpelling EndSpelling TokenEnd.
  destruct (negb _ || negb _); [reflexivity |].
  subst StartOfLine Column.
  destruct (getSpellingColumnNumber SM StartSpelling) as [Col [|]];
    [reflexivity |].
  cbn [fst] in Hf.
  destruct (getCharacterData _ _) as [Text Invalid].
  destruct (negb _); [reflexivity |].
  unfold getFileOffset in Hf. apply Z.ltb_lt in Hf. now rewrite Hf.
Qed.

Lemma insertIfdef_leaves_on_failed_test_witness :
  insertIfdef Inputs.macro_end_manager
    {| CallRange :=
         {| RangeBegin := FileLoc 1 12; RangeEnd := MacroLoc 3 0 |} |}
    ∅ = Done ∅.
Proof.
  apply insertIfdef_leaves_on_failed_test.
  right; right; right; left. vm_compute. discriminate.
Defined.

Section Overrun.
Context {T : Type} `{Located T}.
Variable SM : SourceManager.
Variable Node : T.
Variable Replace : ReplacementsMap.
Variables (F : FileID) (s e : Z).
Variables (buf pre head rest : string).

Hypothesis Hstart : getSpellingLoc SM (getLocStart Node) = FileLoc F s.
Hypothesis Hend : getSpellingLoc SM (getLocEnd Node) = FileLoc F e.
Hypothesis Hbuf : Buffer SM F = Some buf.
Hypothesis Hsplit : buf = pre +:+ head +:+ rest.
Hypothesis Hpre : line_tail pre 0 = 0%nat.
Hypothesis Hhead : free_of is_line_break head = true.
Hypothesis Hs : s = size (pre +:+ head).
Hypothesis Hsize : size buf < 2 ^ 31.

Let TokenEnd := getFileOffset (getLocForEndOfToken SM (FileLoc F e)).

Hypothesis He : size pre <= TokenEnd < 2 ^ 31.
Hypothesis Hrest :
  free_of is_line_feed
    (str_drop (Z.to_nat (TokenEnd - size pre)) (head +:+ rest)) = true.

Lemma overrun_column :
  getSpellingColumnNumber SM (FileLoc F s) = (size head + 1, false).
Proof.
  unfold getSpellingColumnNumber. cbn [getSpellingLoc getDecomposedLoc].
  rewrite Hbuf.
  assert (Hle : s <= size buf).
  { rewrite Hs, Hsplit, <- append_assoc, !size_append.
    pose proof (size_nonneg rest). lia. }
  destruct (Z.ltb_spec (size buf) s); [lia |].
  rewrite Hs, to_nat_size, Hsplit, <- append_assoc, str_take_append.
  rewrite line_tail_append, Hpre, line_tail_free by exact Hhead.
  reflexivity.
Qed.

(** The loop that looks for the end of the line has no bound: when no line
    feed follows the node, it runs past the buffer. *)
Lemma insertIfdef_overrun :
  insertIfdef SM Node Replace = Crash BufferOverrun.
Proof.
  pose proof (size_nonneg pre). pose proof (size_nonneg head).
  pose proof (size_nonneg rest).
  assert (Hbufsize : size buf = size pre + size head + size rest)
    by (rewrite Hsplit, !size_append; lia).
  unfold insertIfdef. rewrite Hstart, Hend. cbn [isValid negb orb].
  rewrite overrun_column.
  rewrite i32_line_offset by lia. cbn [getLocWithOffset].
  replace (s + (1 - (size head + 1))) with (size pre)
    by (rewrite Hs, size_append; lia).
  unfold getCharacterData. cbn [getSpellingLoc getDecomposedLoc fst snd].
  rewrite Hbuf.
  assert (HF : fst (getDecomposedLoc (getLocForEndOfToken SM (FileLoc F e)))
               = F).
  { unfold getLocForEndOfToken.
    destruct (0 <? MeasureTokenLength SM (FileLoc F e)); reflexivity. }
  rewrite HF, Z.eqb_refl. cbn [negb].
  fold (getFileOffset (getLocForEndOfToken SM (FileLoc F e))). fold TokenEnd.
  destruct (Z.ltb_spec TokenEnd (size pre)); [lia |].
  rewrite u32_small by lia.
  unfold find_eol. rewrite to_nat_size, Hsplit, str_drop_append.
  now rewrite scan_eol_none by exact Hrest.
Qed.

End Overrun.

(** X5: the loop [while (Text[eol] != '\n') ++eol;] of the wrapper has no
    bound.  For a node that passes the wrapper's tests and after which the
    buffer holds no line feed - a match on the last line of a file that does
    not end in one - the read runs past the buffer and no insertion is
    made. *)
Theorem insertIfdef_overruns_without_line_feed {T : Type} `{Located T}
    (SM : SourceManager) (Node : T) (Replace : ReplacementsMap)
    (F : FileID) (s e : Z) (buf pre head rest : string) :
  getSpellingLoc SM (getLocStart Node) = FileLoc F s ->
  getSpellingLoc SM (getLocEnd Node) = FileLoc F e ->
  Buffer SM F = Some buf ->
  buf = pre +:+ head +:+ rest ->
  line_tail pre 0 = 0%nat ->
  free_of is_line_break head = true ->
  s = size (pre +:+ head) ->
  size buf < 2 ^ 31 ->
  size pre <= getFileOffset (getLocForEndOfToken SM (FileLoc F e)) < 2 ^ 31 ->
  free_of is_line_feed
    (str_drop
       (Z.to_nat (getFileOffset (getLocForEndOfToken SM (FileLoc F e))
                  - size pre))
       (head +:+ rest)) = true ->
  insertIfdef SM Node Replace = Crash BufferOverrun.
Proof.
  intros Hstart Hend Hbuf Hsplit Hpre Hhead Hs Hsize He Hrest.
  exact (insertIfdef_overrun SM Node Replace F s e buf pre head rest
           Hstart Hend Hbuf Hsplit Hpre Hhead Hs Hsize He Hrest).
Qed.

Lemma insertIfdef_overruns_without_line_feed_witness :
  insertIfdef MoreInputs.last_line_manager MoreInputs.last_line_call ∅
  = Crash BufferOverrun.
Proof.
  apply (insertIfdef_overruns_without_line_feed MoreInputs.last_line_manager
           MoreInputs.last_line_call ∅ 1 12 26 MoreInputs.last_line_code
           "" "QString s = " "Qt::escape(str);");
    try reflexivity.
  vm_compute. split; congruence.
Defined.

(** ** Renaming inside the extracted text *)

(** [find] returns the first occurrence. *)
Lemma find_from_first (pat s : string) (i p : nat) :
  find_from pat s i = Some p ->
  forall before after,
    s = before +:+ pat +:+ after -> (p <= i + String.length before)%nat.
Proof.
  revert i. induction s as [| c s IH]; intros i; rewrite find_from_eq.
  - destruct (String.prefix pat ""); [| discriminate].
    intros [= <-] b a _. lia.
  - destruct (String.prefix pat (String c s)) eqn:Hp.
    + intros [= <-] b a _. lia.
    + intros Hfind b a Heq. destruct b as [| x b].
      * rewrite append_nil_l in Heq.
        assert (String.prefix pat (String c s) = true)
          by (apply prefix_append; eauto).
        congruence.
      * rewrite append_cons in Heq. injection Heq as _ Heq.
        specialize (IH _ Hfind b a Heq). simpl. lia.
Qed.

(** [find] followed by [replace] puts the new text in the place of the
    first occurrence of the old one and keeps the rest. *)
Lemma replace_first (s old new : string) (pos : nat) :
  find s old = Some pos ->
  exists before after,
    s = before +:+ old +:+ after /\
    String.length before = pos /\
    (forall b a, s = b +:+ old +:+ a ->
                 (String.length before <= String.length b)%nat) /\
    replace s (find s old) (size old) new
    = Done (before +:+ new +:+ after).
Proof.
  intros Hfind. unfold find in *.
  destruct (find_from_Some _ _ _ _ Hfind) as (before & after & Hs & Hpos).
  exists before, after. simpl in Hpos. subst pos.
  split; [exact Hs |]. split; [reflexivity |]. split.
  - intros b a Hb. apply (find_from_first _ _ _ _ Hfind b a Hb).
  - rewrite Hfind. cbn [replace]. f_equal. rewrite to_nat_size.
    rewrite Hs at 1 2. rewrite str_take_append.
    rewrite str_drop_add, str_drop_append, str_drop_append. reflexivity.
Qed.

(** X6: [PortAtomic::run] on a bound call whose extent resolves inside an
    available buffer, whose text there is not empty and whose start location
    lies in a file that has a file entry - the call does not start inside a
    macro expansion - replaces the bytes of the call by the same text
    followed by [.load()]: the file changes by the insertion of [.load()]
    right after the call.  In dual mode the outcome is that of the wrapper,
    applied to the call once this edit is recorded. *)
Theorem PortAtomic_appends_load (Opts : Options) (Result : MatchResult)
    (Replace : ReplacementsMap) (Call : CallExpr) (Entry : FileEntry)
    (F : FileID) (s e' : Z) (buf : string) :
  getNodeAs_CallExpr Result "call" = Some Call ->
  resolves (SrcMgr Result) Call F s e' ->
  Buffer (SrcMgr Result) F = Some buf ->
  text_between buf s e' <> "" ->
  getFileEntryForID (SrcMgr Result) (getFileID (getLocStart Call)) = Some Entry ->
  let Edit :=
    {| getFilePath :=
         match getFileEntryForID (SrcMgr Result) F with
         | Some E => getName E
         | None => ""
         end;
       getOffset := s;
       getLength := e' - s;
       getReplacementText := text_between buf s e' +:+ ".load()" |} in
  let Replace1 :=
    <[getName Entry := (edits_of Replace (getName Entry) ++ [Edit])%list]>
      Replace in
  PortAtomic_run Opts Result Replace =
  (if CreateIfdefs Opts then insertIfdef (SrcMgr Result) Call Replace1
   else Done Replace1) /\
  apply Edit buf =
  str_take (Z.to_nat e') buf +:+ ".load()" +:+ str_drop (Z.to_nat e') buf.
Proof.
  intros HCall Hres Hbuf HText HEntry. cbv zeta.
  pose proof (getText_resolves _ _ _ _ _ Hres buf Hbuf) as HgetText.
  split.
  - rewrite (PortAtomic_run_accepted Opts Result Replace Entry Call HCall)
      by (try rewrite HgetText; assumption).
    cbv zeta.
    now rewrite HgetText, (ReplacementOfNode_resolves _ _ _ _ _ Hres).
  - destruct Hres as (e & _ & _ & _ & _ & Hs & _).
    unfold apply, text_between. cbn [getOffset getLength getReplacementText].
    replace (Z.to_nat s + Z.to_nat (e' - s))%nat with (Z.to_nat e') by lia.
    rewrite <- !append_assoc. f_equal. f_equal.
    replace (Z.to_nat e') with (Z.to_nat s + Z.to_nat (e' - s))%nat at 1
      by lia.
    now rewrite str_take_add.
Qed.

Lemma PortAtomic_appends_load_witness :
  PortAtomic_run Fixture.options MoreInputs.atomic_match ∅ =
  Done {[ "/src/atomic.cpp" :=
            [ {| getFilePath := "/src/atomic.cpp"; getOffset := 8;
                 getLength := 3; getReplacementText := "ref.load()" |} ] ]}.
Proof.
  refine (proj1 (PortAtomic_appends_load Fixture.options
                   MoreInputs.atomic_match ∅ MoreInputs.atomic_call
                   {| getName := "/src/atomic.cpp" |} 1 8 11
                   MoreInputs.atomic_code eq_refl _ eq_refl _ eq_refl)).
  - exists 8. vm_compute. repeat split; congruence.
  - vm_compute. discriminate.
Defined.

Lemma find_None_iff (s pat : string) :
  find s pat = None <-> forall before after, s <> before +:+ pat +:+ after.
Proof.
  split.
  - intros Hfind b a. exact (find_from_None _ _ _ Hfind b a).
  - intros Hnone. destruct (find s pat) eqn:Hfind; [| reflexivity].
    exfalso. assert (Hocc : notnull (find s pat) = true) by now rewrite Hfind.
    apply find_occurs in Hocc as (b & a & Hs). exact (Hnone b a Hs).
Qed.

(** X7: [PortMetaMethods::run] on a bound call whose text is extracted and
    holds the word [signature], and whose start location lies in a file that
    has a file entry - the call does not start inside a macro expansion -
    records the replacement of the call's source range by its text with the
    first [signature] turned into [methodSignature], the rest of the text
    being kept.  In dual mode the outcome is that of the wrapper, applied to
    the call once this edit is recorded. *)
Theorem PortMetaMethods_renames_first_signature (Opts : Options)
    (Result : MatchResult) (Replace : ReplacementsMap) (Call : Expr)
    (Entry : FileEntry) (pos : nat) :
  getNodeAs_Expr Result "call" = Some Call ->
  getText (SrcMgr Result) Call <> "" ->
  find (getText (SrcMgr Result) Call) "signature" = Some pos ->
  getFileEntryForID (SrcMgr Result) (getFileID (getLocStart Call)) = Some Entry ->
  exists before after,
    getText (SrcMgr Result) Call = before +:+ "signature" +:+ after /\
    (forall b a,
       getText (SrcMgr Result) Call = b +:+ "signature" +:+ a ->
       (String.length before <= String.length b)%nat) /\
    let Own :=
      ReplacementOfNode (SrcMgr Result) Call
        (before +:+ "methodSignature" +:+ after) in
    let Replace1 :=
      <[getName Entry := (edits_of Replace (getName Entry) ++ [Own])%list]>
        Replace in
    PortMetaMethods_run Opts Result Replace =
    if CreateIfdefs Opts then insertIfdef (SrcMgr Result) Call Replace1
    else Done Replace1.
Proof.
  intros HCall HText Hfind HEntry.
  destruct (replace_first _ _ "methodSignature" _ Hfind)
    as (before & after & Hs & Hpos & Hfirst & Hrep).
  exists before, after. split; [exact Hs |]. split; [exact Hfirst |].
  cbv zeta.
  rewrite (PortMetaMethods_run_accepted Opts Result Replace Entry Call pos)
    by assumption.
  cbv zeta. rewrite Hfind in Hrep. cbn [replace] in Hrep.
  injection Hrep as Hrep. change (Z.to_nat (size "signature")) with 9%nat in Hrep.
  now rewrite Hrep.
Qed.

Lemma PortMetaMethods_renames_first_signature_witness :
  exists before after,
    getText MoreInputs.meta_manager MoreInputs.meta_call
    = before +:+ "signature" +:+ after /\
    PortMetaMethods_run Fixture.options MoreInputs.meta_match ∅ =
    Done {[ "/src/meta.cpp" :=
              [ ReplacementOfNode MoreInputs.meta_manager MoreInputs.meta_call
                  (before +:+ "methodSignature" +:+ after) ] ]}.
Proof.
  destruct (PortMetaMethods_renames_first_signature Fixture.options
              MoreInputs.meta_match ∅ MoreInputs.meta_call
              {| getName := "/src/meta.cpp" |} 2)
    as (before & after & Hs & _ & Hrun); try reflexivity.
  - vm_compute. discriminate.
  - exists before, after. split; [exact Hs |]. exact Hrun.
Defined.

(** X8: [PortMetaMethods::run] does not test the result of [find]: on a call
    whose text is extracted but does not hold the word [signature],
    [std::string::replace] is called at [npos] and throws
    [std::out_of_range]; no edit is made. *)
Theorem PortMetaMethods_throws_without_signature (Opts : Options)
    (Result : MatchResult) (Replace : ReplacementsMap) (Call : Expr) :
  getNodeAs_Expr Result "call" = Some Call ->
  getText (SrcMgr Result) Call <> "" ->
  (forall before after,
     getText (SrcMgr Result) Call <> before +:+ "signature" +:+ after) ->
  PortMetaMethods_run Opts Result Replace = Crash OutOfRange.
Proof.
  intros HCall HText Hnone. apply empty_false in HText.
  apply find_None_iff in Hnone.
  unfold PortMetaMethods_run. rewrite HCall. cbn [deref]. run_binds.
  rewrite HText. cbv zeta. now rewrite Hnone.
Qed.

Lemma PortMetaMethods_throws_without_signature_witness :
  PortMetaMethods_run Fixture.options MoreInputs.meta_macro_match ∅
  = Crash OutOfRange.
Proof.
  apply (PortMetaMethods_throws_without_signature Fixture.options
           MoreInputs.meta_macro_match ∅ MoreInputs.meta_macro_call).
  - reflexivity.
  - vm_compute. discriminate.
  - apply find_None_iff. vm_compute. reflexivity.
Defined.

(** X9: [PortEnum::run] computes the renamed text and does not use it: on a
    bound reference whose extent resolves, whose text is extracted and holds
    the old name, and whose start location lies in a file that has a file
    entry - the reference does not start inside a macro expansion - the
    whole reference, qualifier included, is replaced by [Rename_New] alone,
    whatever the text was.  In dual mode the outcome is that of the wrapper,
    applied to the reference once this edit is recorded. *)
Theorem PortEnum_replaces_by_new_name (Opts : Options) (Result : MatchResult)
    (Replace : ReplacementsMap) (Call : DeclRefExpr) (Entry : FileEntry)
    (pos : nat) (F : FileID) (s e' : Z) :
  getNodeAs_DeclRefExpr Result "call" = Some Call ->
  getText (SrcMgr Result) Call <> "" ->
  find (getText (SrcMgr Result) Call) (Rename_Old Opts) = Some pos ->
  getFileEntryForID (SrcMgr Result) (getFileID (getLocStart Call)) = Some Entry ->
  resolves (SrcMgr Result) Call F s e' ->
  let Edit :=
    {| getFilePath :=
         match getFileEntryForID (SrcMgr Result) F with
         | Some E => getName E
         | None => ""
         end;
       getOffset := s;
       getLength := e' - s;
       getReplacementText := Rename_New Opts |} in
  let Replace1 :=
    <[getName Entry := (edits_of Replace (getName Entry) ++ [Edit])%list]>
      Replace in
  PortEnum_run Opts Result Replace =
  (if CreateIfdefs Opts then insertIfdef (SrcMgr Result) Call Replace1
   else Done Replace1) /\
  forall Code,
    apply Edit Code =
    str_take (Z.to_nat s) Code +:+ Rename_New Opts
      +:+ str_drop (Z.to_nat e') Code.
Proof.
  intros HCall HText Hfind HEntry Hres. cbv zeta. split.
  - rewrite (PortEnum_run_accepted Opts Result Replace Entry Call pos)
      by assumption.
    cbv zeta. now rewrite (ReplacementOfNode_resolves _ _ _ _ _ Hres).
  - intros Code. destruct Hres as (e & _ & _ & _ & _ & Hs & _).
    unfold apply. cbn [getOffset getLength getReplacementText].
    now replace (Z.to_nat s + Z.to_nat (e' - s))%nat with (Z.to_nat e') by lia.
Qed.

Lemma PortEnum_replaces_by_new_name_witness :
  PortEnum_run Inputs.enum_and_escape MoreInputs.align_match ∅ =
  Done {[ "/src/align.cpp" :=
            [ {| getFilePath := "/src/align.cpp"; getOffset := 4;
                 getLength := 13; getReplacementText := "AlignLeading" |} ] ]}
  /\ apply {| getFilePath := "/src/align.cpp"; getOffset := 4;
              getLength := 13; getReplacementText := "AlignLeading" |}
       MoreInputs.align_code
     = "a = AlignLeading;" +:+ nl.
Proof.
  destruct (PortEnum_replaces_by_new_name Inputs.enum_and_escape
              MoreInputs.align_match ∅ MoreInputs.align_ref
              {| getName := "/src/align.cpp" |} 4 1 4 17)
    as [Hrun Happly].
  - reflexivity.
  - vm_compute. discriminate.
  - reflexivity.
  - reflexivity.
  - exists 8. vm_compute. repeat split; congruence.
  - split; [exact Hrun | rewrite Happly; reflexivity].
Defined.

(** ** The method rename rule, further *)

(** What the first and the third alternative of [portMethod]'s matcher
    bind: the callee as "exact" when it is a member access, as "func"
    otherwise; never as "expr". *)
Lemma portMethod_bindings_matchName (Result : MatchResult)
    (hasOldName : bool) (Callee : Expr) (Call : CallExpr) :
  portMethod_bindings true hasOldName Callee Call = Some (Nodes Result) ->
  getNodeAs_CallExpr Result "call" = Some Call /\
  getNodeAs_MemberExpr Result "expr" = None /\
  (notnull (getNodeAs_MemberExpr Result "exact")
   || notnull (getNodeAs_Expr Result "func")) = true.
Proof.
  unfold portMethod_bindings.
  unfold getNodeAs_CallExpr, getNodeAs_MemberExpr, getNodeAs_Expr.
  destruct Callee, hasOldName; cbn [andb]; intros [= <-];
    repeat split; reflexivity.
Qed.

(** X10: a call whose callee itself matches [<ConfiguredClass>::<OldName>]
    (first or third alternative of the matcher) is renamed without any look
    at the overridden methods: when its text is extracted and holds the old
    name, and its start location lies in a file that has a file entry - the
    call does not start inside a macro expansion -, the callback records the
    replacement of the call's source range by its text with the first
    occurrence of the old name replaced by the new one. *)
Theorem PortRenamedMethods_renames_matching_callee (Opts : Options)
    (Result : MatchResult) (Replace : ReplacementsMap) (hasOldName : bool)
    (Callee : Expr) (Call : CallExpr) (Entry : FileEntry) (pos : nat) :
  portMethod_bindings true hasOldName Callee Call = Some (Nodes Result) ->
  getText (SrcMgr Result) Call <> "" ->
  find (getText (SrcMgr Result) Call) (Rename_Old Opts) = Some pos ->
  getFileEntryForID (SrcMgr Result) (getFileID (getLocStart Call)) = Some Entry ->
  exists before after,
    getText (SrcMgr Result) Call = before +:+ Rename_Old Opts +:+ after /\
    (forall b a,
       getText (SrcMgr Result) Call = b +:+ Rename_Old Opts +:+ a ->
       (String.length before <= String.length b)%nat) /\
    PortRenamedMethods_run Opts Result Replace =
    Done (<[getName Entry :=
              (edits_of Replace (getName Entry)
                 ++ [ReplacementOfNode (SrcMgr Result) Call
                       (before +:+ Rename_New Opts +:+ after)])%list]>
            Replace).
Proof.
  intros Hbind HText Hfind HEntry.
  destruct (portMethod_bindings_matchName Result hasOldName Callee Call Hbind)
    as (HCall & HE & Hbound).
  destruct (replace_first _ _ (Rename_New Opts) _ Hfind)
    as (before & after & Hs & Hpos & Hfirst & Hrep).
  exists before, after. split; [exact Hs |]. split; [exact Hfirst |].
  apply empty_false in HText.
  unfold PortRenamedMethods_run. cbv zeta. rewrite HCall.
  apply orb_true_iff in Hbound.
  assert (Hskip : (negb (notnull (getNodeAs_MemberExpr Result "exact"))
                   && negb (notnull (getNodeAs_Expr Result "func"))) = false).
  { destruct Hbound as [-> | ->]; [reflexivity | apply andb_false_r]. }
  rewrite Hskip. run_binds. cbn [orb].
  assert (Hpass : negb (notnull (getNodeAs_MemberExpr Result "exact")
                        || notnull (getNodeAs_Expr Result "func")) = false).
  { destruct Hbound as [-> | ->]; [reflexivity |].
    now rewrite orb_true_r. }
  rewrite Hpass. cbn [deref]. run_binds.
  rewrite HText, Hrep. run_binds. now rewrite HEntry, AddReplacement_Some.
Qed.

Lemma PortRenamedMethods_renames_matching_callee_witness :
  exists before after,
    getText Inputs.use_manager Inputs.use_call = before +:+ "m" +:+ after /\
    PortRenamedMethods_run MoreInputs.rename_m_plain
      (MoreInputs.exact_match Inputs.overrides_nothing) ∅ =
    Done {[ "/src/use.cpp" :=
              [ ReplacementOfNode Inputs.use_manager Inputs.use_call
                  (before +:+ "n" +:+ after) ] ]}.
Proof.
  destruct (PortRenamedMethods_renames_matching_callee
              MoreInputs.rename_m_plain
              (MoreInputs.exact_match Inputs.overrides_nothing) ∅ true
              (EMember (Inputs.use_callee Inputs.overrides_nothing))
              Inputs.use_call {| getName := "/src/use.cpp" |} 2)
    as (before & after & Hs & _ & Hrun); try reflexivity.
  - vm_compute. discriminate.
  - exists before, after. split; [exact Hs | exact Hrun].
Defined.

(** X11: the method rename callback does not test the result of [find]
    either: for a call that qualifies by its callee and whose text is
    extracted but does not hold the old name - the name of the method being
    written through a macro, say - [std::string::replace] throws
    [std::out_of_range] and no edit is made. *)
Theorem PortRenamedMethods_throws_without_old_name (Opts : Options)
    (Result : MatchResult) (Replace : ReplacementsMap) (hasOldName : bool)
    (Callee : Expr) (Call : CallExpr) :
  portMethod_bindings true hasOldName Callee Call = Some (Nodes Result) ->
  getText (SrcMgr Result) Call <> "" ->
  (forall before after,
     getText (SrcMgr Result) Call <> before +:+ Rename_Old Opts +:+ after) ->
  PortRenamedMethods_run Opts Result Replace = Crash OutOfRange.
Proof.
  intros Hbind HText Hnone.
  destruct (portMethod_bindings_matchName Result hasOldName Callee Call Hbind)
    as (HCall & HE & Hbound).
  apply empty_false in HText. apply find_None_iff in Hnone.
  unfold PortRenamedMethods_run. cbv zeta. rewrite HCall.
  apply orb_true_iff in Hbound.
  assert (Hskip : (negb (notnull (getNodeAs_MemberExpr Result "exact"))
                   && negb (notnull (getNodeAs_Expr Result "func"))) = false).
  { destruct Hbound as [-> | ->]; [reflexivity | apply andb_false_r]. }
  rewrite Hskip. run_binds. cbn [orb].
  assert (Hpass : negb (notnull (getNodeAs_MemberExpr Result "exact")
                        || notnull (getNodeAs_Expr Result "func")) = false).
  { destruct Hbound as [-> | ->]; [reflexivity |].
    now rewrite orb_true_r. }
  rewrite Hpass. cbn [deref]. run_binds.
  now rewrite HText, Hnone.
Qed.

Lemma PortRenamedMethods_throws_without_old_name_witness :
  PortRenamedMethods_run MoreInputs.rename_m_plain
    MoreInputs.macro_name_match ∅ = Crash OutOfRange.
Proof.
  apply (PortRenamedMethods_throws_without_old_name MoreInputs.rename_m_plain
           MoreInputs.macro_name_match ∅ true
           (EMember {| MemberRange := Fixture.range 1 0 2;
                       getMemberDecl :=
                         MethodDecl (Inputs.method "Foo::m" []) |})
           MoreInputs.macro_name_call).
  - reflexivity.
  - vm_compute. discriminate.
  - apply find_None_iff. vm_compute. reflexivity.
Defined.

Lemma find_empty_pattern (s : string) : find s "" = Some 0%nat.
Proof. unfold find. rewrite find_from_eq. now destruct s. Qed.

Lemma overridden_loop_empty_pattern (Os : list CXXMethodDecl) :
  overridden_loop "" Os = match Os with [] => false | _ => true end.
Proof.
  destruct Os as [| Ov Os]; [reflexivity |].
  cbn [overridden_loop]. now rewrite find_empty_pattern.
Qed.

(** X12: [-rename-class] is optional, and the override test looks for the
    class name alone: when no class is configured the pattern is empty and
    [find] succeeds on every name.  A matched call of a member function
    named [OldName] (bound as ["expr"]), whose text is extracted and holds
    the old name and whose start location lies in a file that has a file
    entry - the call does not start inside a macro expansion -, is then
    renamed as soon as its method directly overrides any method at all, of
    whatever class, and is left alone when it directly overrides none. *)
Theorem PortRenamedMethods_without_class (Opts : Options)
    (Result : MatchResult) (Replace : ReplacementsMap) (Call : CallExpr)
    (E : MemberExpr) (M : CXXMethodDecl) (Entry : FileEntry) (pos : nat) :
  RenameMethod_Class Opts = "" ->
  portMethod_bindings false true (EMember E) Call = Some (Nodes Result) ->
  getMemberDecl E = MethodDecl M ->
  getText (SrcMgr Result) Call <> "" ->
  find (getText (SrcMgr Result) Call) (Rename_Old Opts) = Some pos ->
  getFileEntryForID (SrcMgr Result) (getFileID (getLocStart Call)) = Some Entry ->
  let ArgText := getText (SrcMgr Result) Call in
  let Renamed :=
    str_take pos ArgText +:+ Rename_New Opts
      +:+ str_drop (pos + String.length (Rename_Old Opts)) ArgText in
  PortRenamedMethods_run Opts Result Replace =
  match overridden_methods M with
  | [] => Done Replace
  | _ :: _ =>
      Done (<[getName Entry :=
                (edits_of Replace (getName Entry)
                   ++ [ReplacementOfNode (SrcMgr Result) Call Renamed])%list]>
              Replace)
  end.
Proof.
  intros HClass Hbind HM HText Hfind HEntry. cbv zeta.
  destruct (portMethod_bindings_expr Result E Call Hbind)
    as (HCall & HE & HExact & HFunc).
  rewrite (PortRenamedMethods_run_expr Opts Result Replace Call E M Entry pos)
    by assumption.
  rewrite HClass, overridden_loop_empty_pattern.
  now destruct (overridden_methods M).
Qed.

Lemma PortRenamedMethods_without_class_witness :
  PortRenamedMethods_run MoreInputs.rename_m_any_class
    (Inputs.use_match MoreInputs.overrides_Other) ∅ =
  Done {[ "/src/use.cpp" :=
            [ {| getFilePath := "/src/use.cpp"; getOffset := 0;
                 getLength := 5; getReplacementText := "d.n()" |} ] ]}.
Proof.
  rewrite (PortRenamedMethods_without_class MoreInputs.rename_m_any_class
             (Inputs.use_match MoreInputs.overrides_Other) ∅ Inputs.use_call
             (Inputs.use_callee MoreInputs.overrides_Other)
             MoreInputs.overrides_Other {| getName := "/src/use.cpp" |} 2).
  - vm_compute. reflexivity.
  - reflexivity.
  - reflexivity.
  - reflexivity.
  - vm_compute. discriminate.
  - reflexivity.
  - reflexivity.
Defined.

(** ** [main], further *)

(** X13: [main] ends in a fatal error exactly when the compilation database
    does not load, and then with the loader's message and without running
    anything, whatever selectors are given; and in no case does it run more
    than one finder. *)
Theorem main_fatal_iff_no_database (Opts : Options)
    (CompilationDatabase : Type)
    (loadFromDirectory : string -> option CompilationDatabase * string)
    (ToolRun : CompilationDatabase -> list string -> Finder -> Z) :
  let result := main Opts CompilationDatabase loadFromDirectory ToolRun in
  (length (fst result) <= 1)%nat /\
  (forall ErrorMessage,
     snd result = FatalError ErrorMessage <->
     loadFromDirectory (BuildPath Opts) = (None, ErrorMessage)) /\
  (fst (loadFromDirectory (BuildPath Opts)) = None -> fst result = []).
Proof.
  cbv zeta. unfold main.
  destruct (loadFromDirectory (BuildPath Opts)) as [[Compilations |] msg].
  - unfold portEnum, portMethod, portQMetaMethodSignature, portQtEscape,
      portAtomics, portQImageText, portViewDataChanged.
    destruct (negb (String.eqb (RenameEnum Opts) ""));
      [| destruct (negb (String.eqb (Rename_Old Opts) "")
                   && negb (String.eqb (Rename_New Opts) ""));
         [| destruct (PortQMetaMethodSignature Opts);
            [| destruct (PortQtEscape Opts);
               [| destruct (PortAtomics Opts);
                  [| destruct (Port_QImage_text Opts);
                     [| destruct (Port_QAbstractItemView_dataChanged Opts)]]]]]];
      cbn [fst snd length]; (split; [lia |]); (split; [| discriminate]);
      intros ErrorMessage; split; discriminate.
  - cbn [fst snd length]. split; [lia |]. split; [| reflexivity].
    intros ErrorMessage. split; congruence.
Qed.

Lemma main_fatal_iff_no_database_witness :
  main Inputs.enum_and_escape unit MoreInputs.fails_to_load Inputs.run_fails
  = ([], FatalError "Could not auto-detect compilation database").
Proof.
  destruct (main_fatal_iff_no_database Inputs.enum_and_escape unit
              MoreInputs.fails_to_load Inputs.run_fails)
    as (_ & Hfatal & Hnone).
  apply injective_projections.
  - exact (Hnone eq_refl).
  - exact (proj2 (Hfatal _) eq_refl).
Defined.

(** ** The argument removal rule, further *)

(** X14: when the argument before the sentinel is one token written in the
    file itself - its start and its end are one and the same location of the
    file, none of them inside a macro expansion - the sentinel ends in that
    file, inside its buffer, the file has an entry and the tool is not in
    dual mode, the edit of [RemoveArgument::run] removes the bytes from the
    end of that token to the end of the sentinel - comma and blanks
    included - and nothing else: the file after the edit is the text up to
    the end of the first argument followed by the text from the end of the
    sentinel on. *)
Theorem RemoveArgument_removes_after_one_token (Opts : Options)
    (Result : MatchResult) (Replace : ReplacementsMap) (Key Lang : Expr)
    (F : FileID) (k l : Z) (Entry : FileEntry) (buf : string) :
  let SM := SrcMgr Result in
  let a := k + TokenLength SM F k in
  let b := l + TokenLength SM F l in
  getNodeAs_Expr Result "prevArg" = Some Key ->
  getNodeAs_Expr Result "arg" = Some Lang ->
  getLocStart Key = FileLoc F k ->
  getLocEnd Key = FileLoc F k ->
  getSpellingLoc SM (getLocEnd Lang) = FileLoc F l ->
  0 <= TokenLength SM F k -> 0 <= TokenLength SM F l ->
  0 <= k -> a <= b -> b < 2 ^ 31 ->
  Buffer SM F = Some buf -> b <= size buf ->
  getFileEntryForID SM F = Some Entry ->
  CreateIfdefs Opts = false ->
  let Edit :=
    {| getFilePath := getName Entry; getOffset := a; getLength := b - a;
       getReplacementText := "" |} in
  RemoveArgument_run Opts Result Replace =
  Done (<[getName Entry := (edits_of Replace (getName Entry) ++ [Edit])%list]>
          Replace) /\
  forall Code,
    apply Edit Code = str_take (Z.to_nat a) Code +:+ str_drop (Z.to_nat b) Code.
Proof.
  intros SM a b HKey HLang HKs HKe HLe Hlk Hll Hk Hab Hb Hbuf Hin HEntry Hmode.
  cbv zeta. split.
  - rewrite (RemoveArgument_span Opts Result Replace Key Lang F k l Entry buf);
      try assumption.
    + rewrite HKs. cbn [getFileOffset getDecomposedLoc snd].
      fold SM a b. now replace (a + (k - k)) with a by ring.
    + fold SM. now rewrite HKe.
    + rewrite HKs. cbn [getFileOffset getDecomposedLoc snd]. lia.
    + rewrite HKs. cbn [getFileOffset getDecomposedLoc snd]. fold SM b. lia.
    + rewrite HKs. cbn [getFileOffset getDecomposedLoc snd]. fold SM b. lia.
  - intros Code. unfold apply. cbn [getOffset getLength getReplacementText].
    rewrite append_nil_l.
    now replace (Z.to_nat a + Z.to_nat (b - a))%nat with (Z.to_nat b) by lia.
Qed.

Lemma RemoveArgument_removes_after_one_token_witness :
  RemoveArgument_run Fixture.options Inputs.image_key_match ∅ =
  Done {[ "/src/image.cpp" :=
            [ {| getFilePath := "/src/image.cpp"; getOffset := 24;
                 getLength := 3; getReplacementText := "" |} ] ]}.
Proof.
  refine (proj1 (RemoveArgument_removes_after_one_token Fixture.options
                   Inputs.image_key_match ∅
                   (EOther (Fixture.range 1 21 21))
                   (EOther (Fixture.range 1 26 26)) 1 21 26
                   {| getName := "/src/image.cpp" |} Inputs.image_key_code
                   eq_refl eq_refl eq_refl eq_refl eq_refl
                   _ _ _ _ _ eq_refl _ eq_refl eq_refl));
    vm_compute; congruence.
Defined.

(** X15: [RemoveArgument::run] makes no edit when a spelling location it
    needs is invalid, when the ends of the two arguments lie in different
    entries - the sentinel being spelled in a macro of another file, say -
    or when the sentinel ends before the first argument does. *)
Theorem RemoveArgument_skips_unresolved (Opts : Options)
    (Result : MatchResult) (Replace : ReplacementsMap) (Key Lang : Expr) :
  let SM := SrcMgr Result in
  let StartSpelling := getSpellingLoc SM (getLocEnd Key) in
  let EndSpelling := getSpellingLoc SM (getLocEnd Lang) in
  let Start := getLocForEndOfToken SM StartSpelling in
  let End_ := getLocForEndOfToken SM EndSpelling in
  getNodeAs_Expr Result "prevArg" = Some Key ->
  getNodeAs_Expr Result "arg" = Some Lang ->
  isValid StartSpelling = false \/
  isValid EndSpelling = false \/
  getFileID Start <> getFileID End_ \/
  getFileOffset End_ < getFileOffset Start ->
  RemoveArgument_run Opts Result Replace = Done Replace.
Proof.
  intros SM StartSpelling EndSpelling Start End_ HKey HLang Hfail.
  unfold RemoveArgument_run. cbv zeta. rewrite HKey, HLang. cbn [deref].
  run_binds. fold SM StartSpelling EndSpelling Start End_.
  destruct (isValid StartSpelling) eqn:HS; [| reflexivity].
  destruct (isValid EndSpelling) eqn:HE; [| reflexivity].
  cbn [negb orb].
  destruct Hfail as [Hf | [Hf | [Hf | Hf]]]; try discriminate.
  - unfold getFileID in Hf. apply Z.eqb_neq in Hf. now rewrite Hf.
  - destruct (negb _); [reflexivity |].
    unfold getFileOffset in Hf. apply Z.ltb_lt in Hf. now rewrite Hf.
Qed.

Lemma RemoveArgument_skips_unresolved_witness :
  RemoveArgument_run Fixture.options MoreInputs.sentinel_macro_match ∅
  = Done ∅.
Proof.
  apply (RemoveArgument_skips_unresolved Fixture.options
           MoreInputs.sentinel_macro_match ∅
           (EOther (Fixture.range 1 21 21))
           (EOther {| RangeBegin := MacroLoc 3 0; RangeEnd := MacroLoc 3 0 |}));
    try reflexivity.
  right; right; left. vm_compute. discriminate.
Defined.

(** ** The [dataChanged] rule, further *)

(** X16: [PortView2::run] leaves declarations outside the source root
    alone: when the start of the declaration has no valid spelling location,
    or lies in a file whose name does not start with [SourceDir], no edit is
    made and the parameters are not looked at - so a declaration without
    parameters is harmless there. *)
Theorem PortView2_leaves_outside_source_root (Opts : Options)
    (Result : MatchResult) (Replace : ReplacementsMap) (F : CXXMethodDecl) :
  let StartSpelling := getSpellingLoc (SrcMgr Result) (getLocStart F) in
  getNodeAs_CXXMethodDecl Result "funcDecl" = Some F ->
  isValid StartSpelling = false \/
  (exists Entry,
     getFileEntryForID (SrcMgr Result) (getFileID StartSpelling) = Some Entry /\
     startswith (getName Entry) (SourceDir Opts) = false) ->
  PortView2_run Opts Result Replace = Done Replace.
Proof.
  intros StartSpelling HF Hout. unfold PortView2_run. cbv zeta.
  rewrite HF. cbn [deref]. run_binds. fold StartSpelling.
  destruct Hout as [-> | (Entry & HEntry & Hroot)]; [reflexivity |].
  destruct (isValid StartSpelling); [| reflexivity]. cbn [negb].
  unfold getFileID in HEntry. now rewrite HEntry, Hroot.
Qed.

Lemma PortView2_leaves_outside_source_root_witness :
  PortView2_run Fixture.options MoreInputs.library_match ∅ = Done ∅.
Proof.
  apply (PortView2_leaves_outside_source_root Fixture.options
           MoreInputs.library_match ∅ Inputs.list_decl).
  - reflexivity.
  - right. exists {| getName := "/usr/include/qt4/QtGui/qlistview.h" |}.
    split; reflexivity.
Defined.

(** ** Matchers and callbacks together *)

(** X17: every match of [portQtEscape]'s matcher binds the call and exactly
    one of "operator", "ctor" and "expr" - for a bound temporary, the
    operator call inside it - so [PortQtEscape4To5::run] finds every node it
    dereferences, and the argument is wrapped in [QString(...)] unless it is
    bound as "expr".  The callback can then only fail in adding an edit for
    a location without a file, or in the wrapper's scan for the end of the
    line. *)
Theorem PortQtEscape4To5_run_on_match (Opts : Options) (Result : MatchResult)
    (Replace : ReplacementsMap) (Arg : Expr) (Kind : EscapeArgumentKind)
    (Call : CallExpr) :
  portQtEscape_bindings true (Some (Arg, Kind)) Call = Some (Nodes Result) ->
  let Bound :=
    match Kind with BindTemporaryOfOperatorCall Inner => Inner | _ => Arg end in
  let wrapped := match Kind with OtherExpr => false | _ => true end in
  getNodeAs_CallExpr Result "call" = Some Call /\
  EscapeArgument Result Bound wrapped /\
  forall f,
    PortQtEscape4To5_run Opts Result Replace = Crash f ->
    f = NullFileEntry \/ f = BufferOverrun.
Proof.
  unfold portQtEscape_bindings. intros [= Hnodes]. cbv zeta.
  assert (HCall : getNodeAs_CallExpr Result "call" = Some Call).
  { unfold getNodeAs_CallExpr. rewrite <- Hnodes. now destruct Kind. }
  assert (HArg : EscapeArgument Result
                   match Kind with
                   | BindTemporaryOfOperatorCall Inner => Inner
                   | _ => Arg
                   end
                   match Kind with OtherExpr => false | _ => true end).
  { destruct Kind;
      [apply Argument_operator | apply Argument_operator
       | apply Argument_ctor | apply Argument_expr];
      unfold getNodeAs_Expr; rewrite <- Hnodes; reflexivity. }
  split; [exact HCall |]. split; [exact HArg |].
  intros f. unfold PortQtEscape4To5_run. cbv zeta. rewrite HCall.
  inversion HArg as [A HO HC HE | A HC HE HO | A HE HC HO];
    rewrite ?HC, ?HE, ?HO; cbn [deref notnull orb];
    unfold mret, Outcome_ret; run_binds;
    (destruct (empty _); [discriminate |]);
    run_binds; intros Hrun;
    apply bind_inv_Crash in Hrun as [Hrun | (R1 & _ & Hrun)];
    try (left; eapply AddReplacement_Crash; eassumption);
    (destruct (CreateIfdefs Opts); [| discriminate]);
    apply insertIfdef_Crash in Hrun; tauto.
Qed.

Lemma PortQtEscape4To5_run_on_match_witness :
  EscapeArgument Inputs.escape_sum_match
    (ECall {| CallRange := Fixture.range 1 25 29 |}) true.
Proof.
  exact (proj1 (proj2 (PortQtEscape4To5_run_on_match Fixture.options
                         Inputs.escape_sum_match ∅
                         (ECall {| CallRange := Fixture.range 1 25 29 |})
                         OperatorCallExpr Inputs.escape_sum_call eq_refl))).
Defined.

(** X18: every match of [portQImageText]'s matchers binds the call and the
    two arguments, so [RemoveArgument::run] finds every node it
    dereferences: it can only fail in adding its edit for a location
    without a file, or in the wrapper's scan for the end of the line. *)
Theorem RemoveArgument_run_on_match (Opts : Options) (Result : MatchResult)
    (Replace : ReplacementsMap) (hasTextName hasSetTextName : bool)
    (Args : list (Expr * bool)) (Call : CallExpr) :
  portQImageText_bindings hasTextName hasSetTextName Args Call
  = Some (Nodes Result) ->
  (exists PrevArg Arg rest flag,
     Args = (PrevArg, flag) :: (Arg, true) :: rest /\
     getNodeAs_CallExpr Result "call" = Some Call /\
     getNodeAs_Expr Result "prevArg" = Some PrevArg /\
     getNodeAs_Expr Result "arg" = Some Arg) /\
  forall f,
    RemoveArgument_run Opts Result Replace = Crash f ->
    f = NullFileEntry \/ f = BufferOverrun.
Proof.
  unfold portQImageText_bindings.
  destruct (hasTextName || hasSetTextName); [| discriminate].
  destruct Args as [| [PrevArg flag] [| [Arg [|]] rest]]; try discriminate.
  intros [= Hnodes].
  assert (HCall : getNodeAs_CallExpr Result "call" = Some Call)
    by (unfold getNodeAs_CallExpr; now rewrite <- Hnodes).
  assert (HPrev : getNodeAs_Expr Result "prevArg" = Some PrevArg)
    by (unfold getNodeAs_Expr; now rewrite <- Hnodes).
  assert (HArg : getNodeAs_Expr Result "arg" = Some Arg)
    by (unfold getNodeAs_Expr; now rewrite <- Hnodes).
  split; [eauto 10 |].
  intros f. unfold RemoveArgument_run. cbv zeta.
  rewrite HCall, HPrev, HArg. cbn [deref]. run_binds.
  destruct (negb _ || negb _); [discriminate |].
  destruct (negb _); [discriminate |].
  destruct (_ <? _); [discriminate |].
  intros Hrun. apply bind_inv_Crash in Hrun as [Hrun | (R1 & _ & Hrun)].
  - left. eapply AddReplacement_Crash; eassumption.
  - destruct (CreateIfdefs Opts); [| discriminate].
    rewrite bind_Done in Hrun. apply insertIfdef_Crash in Hrun. tauto.
Qed.

Lemma RemoveArgument_run_on_match_witness :
  exists PrevArg Arg rest flag,
    [ (EOther (Fixture.range 1 21 21), false);
      (EOther (Fixture.range 1 26 26), true) ]
    = (PrevArg, flag) :: (Arg, true) :: rest /\
    getNodeAs_CallExpr Inputs.image_key_match "call"
    = Some {| CallRange := Fixture.range 1 12 27 |} /\
    getNodeAs_Expr Inputs.image_key_match "prevArg" = Some PrevArg /\
    getNodeAs_Expr Inputs.image_key_match "arg" = Some Arg.
Proof.
  exact (proj1 (RemoveArgument_run_on_match Fixture.options
                  Inputs.image_key_match ∅ true false
                  [ (EOther (Fixture.range 1 21 21), false);
                    (EOther (Fixture.range 1 26 26), true) ]
                  {| CallRange := Fixture.range 1 12 27 |} eq_refl)).
Defined.

(** X19: every match of [portMethod]'s matcher binds the call and exactly
    one of "exact", "expr" and "func".  When the member named by a callee
    bound as "expr" is a method - as the matcher's [functionDecl] makes it -
    [PortRenamedMethods::run] finds every node it dereferences: it can only
    fail by [std::out_of_range], the text of the call not holding the old
    name, or in adding its edit for a location without a file. *)
Theorem PortRenamedMethods_run_on_match (Opts : Options)
    (Result : MatchResult) (Replace : ReplacementsMap)
    (hasMatchName hasOldName : bool) (Callee : Expr) (Call : CallExpr) :
  portMethod_bindings hasMatchName hasOldName Callee Call
  = Some (Nodes Result) ->
  (forall E, Callee = EMember E -> exists M, getMemberDecl E = MethodDecl M) ->
  getNodeAs_CallExpr Result "call" = Some Call /\
  (Nat.b2n (notnull (getNodeAs_MemberExpr Result "exact"))
   + Nat.b2n (notnull (getNodeAs_MemberExpr Result "expr"))
   + Nat.b2n (notnull (getNodeAs_Expr Result "func")) = 1)%nat /\
  forall f,
    PortRenamedMethods_run Opts Result Replace = Crash f ->
    f = OutOfRange \/ f = NullFileEntry.
Proof.
  intros Hbind Hmethod.
  assert (Hshape :
    getNodeAs_CallExpr Result "call" = Some Call /\
    ((exists E, Callee = EMember E /\
                getNodeAs_MemberExpr Result "exact" = Some E /\
                getNodeAs_MemberExpr Result "expr" = None /\
                getNodeAs_Expr Result "func" = None) \/
     (exists E, Callee = EMember E /\
                getNodeAs_MemberExpr Result "exact" = None /\
                getNodeAs_MemberExpr Result "expr" = Some E /\
                getNodeAs_Expr Result "func" = None) \/
     (getNodeAs_MemberExpr Result "exact" = None /\
      getNodeAs_MemberExpr Result "expr" = None /\
      getNodeAs_Expr Result "func" = Some Callee))).
  { unfold portMethod_bindings in Hbind.
    unfold getNodeAs_CallExpr, getNodeAs_MemberExpr, getNodeAs_Expr.
    destruct hasMatchName, hasOldName, Callee; cbn [andb] in Hbind;
      try discriminate; injection Hbind as <-;
      (split; [reflexivity |]);
      first [ left; eexists; repeat split; reflexivity
            | right; left; eexists; repeat split; reflexivity
            | right; right; repeat split; reflexivity ]. }
  destruct Hshape as (HCall & Hcases).
  split; [exact HCall |].
  assert (Hfaults : forall ov f,
    (if negb ov then Done Replace
     else
       Call' ← deref (Some Call);
       (let ArgText := getText (SrcMgr Result) Call' in
        if empty ArgText then Done Replace
        else
          ArgText' ← replace ArgText (find ArgText (Rename_Old Opts))
                       (size (Rename_Old Opts)) (Rename_New Opts);
          AddReplacement
            (getFileEntryForID (SrcMgr Result) (getFileID (getLocStart Call')))
            (ReplacementOfNode (SrcMgr Result) Call' ArgText') Replace))
    = Crash f -> f = OutOfRange \/ f = NullFileEntry).
  { intros ov f. destruct (negb ov); [discriminate |].
    cbn [deref]. run_binds. cbv zeta.
    destruct (empty _); [discriminate |].
    destruct (find _ _) as [pos |]; cbn [replace]; run_binds.
    - intros Hrun. right. eapply AddReplacement_Crash; eassumption.
    - intros [= <-]. now left. }
  destruct Hcases as [(E & -> & HX & HE & HFn) | [(E & -> & HX & HE & HFn)
                                                  | (HX & HE & HFn)]].
  - split; [now rewrite HX, HE, HFn |].
    intros f. unfold PortRenamedMethods_run. cbv zeta.
    rewrite HCall, HX, HE, HFn. cbn [notnull negb andb orb]. run_binds.
    apply (Hfaults true).
  - split; [now rewrite HX, HE, HFn |].
    destruct (Hmethod E eq_refl) as [M HM].
    intros f. unfold PortRenamedMethods_run. cbv zeta.
    rewrite HCall, HX, HE, HFn. cbn [notnull negb andb orb deref]. run_binds.
    rewrite HM. cbn [dyn_cast_CXXMethodDecl deref].
    unfold mret, Outcome_ret. run_binds. rewrite !orb_false_r.
    apply Hfaults.
  - split; [now rewrite HX, HE, HFn |].
    intros f. unfold PortRenamedMethods_run. cbv zeta.
    rewrite HCall, HX, HE, HFn. cbn [notnull negb andb orb]. run_binds.
    apply (Hfaults true).
Qed.

Lemma PortRenamedMethods_run_on_match_witness :
  getNodeAs_CallExpr (Inputs.use_match Inputs.overrides_Foo) "call"
  = Some Inputs.use_call.
Proof.
  refine (proj1 (PortRenamedMethods_run_on_match Inputs.rename_m
                   (Inputs.use_match Inputs.overrides_Foo) ∅
                   false true
                   (EMember (Inputs.use_callee Inputs.overrides_Foo))
                   Inputs.use_call eq_refl _)).
  intros E [= <-]. now exists Inputs.overrides_Foo.
Defined.

(** ** Skipped matches and the wrapper *)

(** X20: in the four callbacks that apply the wrapper after extracting
    text, an empty extraction ends the callback at once: no edit is made
    and, in dual mode too, the wrapper is not applied. *)
Theorem empty_extraction_skips_wrapper (Opts : Options) (Result : MatchResult)
    (Replace : ReplacementsMap) :
  (forall Call,
     getNodeAs_Expr Result "call" = Some Call ->
     getText (SrcMgr Result) Call = "" ->
     PortMetaMethods_run Opts Result Replace = Done Replace) /\
  (forall Call,
     getNodeAs_CallExpr Result "call" = Some Call ->
     getText (SrcMgr Result) Call = "" ->
     PortAtomic_run Opts Result Replace = Done Replace) /\
  (forall Call,
     getNodeAs_DeclRefExpr Result "call" = Some Call ->
     getText (SrcMgr Result) Call = "" ->
     PortEnum_run Opts Result Replace = Done Replace) /\
  (forall Arg wrapped,
     EscapeArgument Result Arg wrapped ->
     getText (SrcMgr Result) Arg = "" ->
     PortQtEscape4To5_run Opts Result Replace = Done Replace).
Proof.
  repeat split.
  - intros Call. apply PortMetaMethods_skips.
  - intros Call. apply PortAtomic_skips.
  - intros Call. apply PortEnum_skips.
  - intros Arg wrapped HArg HT.
    apply (PortQtEscape4To5_skips Opts Result Replace Arg); [| exact HT].
    inversion HArg as [A HO HC HE | A HC HE HO | A HE HC HO];
      rewrite ?HC, ?HE, ?HO; reflexivity.
Qed.

Lemma empty_extraction_skips_wrapper_witness :
  PortAtomic_run Inputs.dual_escape MoreInputs.nowhere_match ∅ = Done ∅.
Proof.
  destruct (empty_extraction_skips_wrapper Inputs.dual_escape
              MoreInputs.nowhere_match ∅) as (_ & Hatomic & _).
  apply (Hatomic {| CallRange :=
                      {| RangeBegin := InvalidLoc; RangeEnd := InvalidLoc |} |});
    reflexivity.
Defined.

(** X21: the two insertions of the wrapper never overlap the replacement of
    the node the wrapper is given: the first insertion lies at or before the
    start of the node, on the first column of its line, and the second at or
    after the end of its last token, at the end of the line. *)
Theorem wrapper_encloses_node {T : Type} `{Located T} (SM : SourceManager)
    (Node : T) (Replace : ReplacementsMap) (F : FileID) (s e : Z)
    (Entry : FileEntry) (buf pre head body tail post NewText : string) :
  getSpellingLoc SM (getLocStart Node) = FileLoc F s ->
  getSpellingLoc SM (getLocEnd Node) = FileLoc F e ->
  Buffer SM F = Some buf ->
  getFileEntryForID SM F = Some Entry ->
  buf = pre +:+ head +:+ body +:+ tail +:+ nl +:+ post ->
  line_tail pre 0 = 0%nat ->
  free_of is_line_break head = true ->
  free_of is_line_feed tail = true ->
  s = size (pre +:+ head) ->
  0 <= TokenLength SM F e ->
  e + TokenLength SM F e = size (pre +:+ head +:+ body) ->
  size buf < 2 ^ 31 ->
  let line := head +:+ body +:+ tail in
  let Open := wrapper_open (getName Entry) pre line in
  let Close := wrapper_close (getName Entry) pre line in
  let Own := ReplacementOfNode SM Node NewText in
  insertIfdef SM Node Replace =
  Done (<[getName Entry :=
            (edits_of Replace (getName Entry) ++ [Open; Close])%list]>
          Replace) /\
  getOffset Open + getLength Open <= getOffset Own /\
  getOffset Own + getLength Own <= getOffset Close /\
  getLength Own = size body.
Proof.
  intros Hstart Hend Hbuf HEntry Hsplit Hpre Hhead Htail Hs Hlen He Hsize.
  cbv zeta.
  pose proof (size_nonneg pre). pose proof (size_nonneg head).
  pose proof (size_nonneg body). pose proof (size_nonneg tail).
  pose proof (size_nonneg post).
  assert (Hbufsize : size buf = size pre + size head + size body + size tail
                                + 1 + size post).
  { rewrite Hsplit, !size_append. change (size nl) with 1. lia. }
  assert (Hres : resolves SM Node F s (size (pre +:+ head +:+ body))).
  { exists e. rewrite Hs, !size_append in *. repeat split; try assumption; lia. }
  split.
  - apply (insertIfdef_inserts SM Node Replace F s e Entry
             buf pre head body tail post); try assumption.
    unfold getLocForEndOfToken, MeasureTokenLength.
    destruct (Z.ltb_spec 0 (TokenLength SM F e)); simpl; lia.
  - rewrite (ReplacementOfNode_resolves _ _ _ _ _ Hres).
    unfold wrapper_open, wrapper_close. cbn [getOffset getLength].
    rewrite Hs, !size_append. lia.
Qed.

Lemma wrapper_encloses_node_witness :
  let Own :=
    ReplacementOfNode Inputs.escape_plain_manager Inputs.escape_plain_call
      "str.toHtmlEscaped()" in
  0 <= getOffset Own /\ getOffset Own + getLength Own <= 28.
Proof.
  destruct (wrapper_encloses_node Inputs.escape_plain_manager
              Inputs.escape_plain_call ∅ 1 12 26
              {| getName := "/src/main.cpp" |}
              ("QString s = Qt::escape(str);" +:+ nl)
              "" "QString s = " "Qt::escape(str)" ";" ""
              "str.toHtmlEscaped()")
    as (_ & Hopen & Hclose & _); try reflexivity.
  - vm_compute. discriminate.
  - split; [exact Hopen | exact Hclose].
Defined.
